(** * The mount lifecycle coordinator of package fuse (mounted_file_system.go)

    A shallow embedding of [MountedFileSystem], of its wait calls
    [WaitForReady] and [Join], of the background task [mountAndServe] together
    with the readiness goroutine it spawns, and of the constructor [Mount].

    Go values are modelled as follows.
    - [error]: [None] is Go's nil, [Some msg] an error whose [Error()] is [msg].
    - [chan struct{}] that is only ever closed and received from: [Open] or
      [Closed].  A receive can proceed exactly on a closed channel, closing a
      closed channel panics.
    - a [select] over two receives takes the case that can proceed; when both
      can, Go chooses one of them at random, which is the [pick] argument; when
      none can, the call blocks, which is the result [None].
    - goroutines are interleaved one atomic statement at a time; the fields
      [readyStatus] and [joinStatus] are only read after a receive from
      their closed channel, so the interleaving is all a reader can see.  The
      log of a system records every statement with an effect, most recent
      first. *)

From stdpp Require Import base tactics option list strings relations.

Open Scope string_scope.

(** ** Values *)

Definition error : Type := option string.

(** [errors.New(text)] *)
Definition errors_New (text : string) : error := Some text.

Inductive chan : Type := Open | Closed.

Global Instance chan_eq_dec : EqDecision chan.
Proof. solve_decision. Defined.

(** [close(c)]: [None] is the panic on a closed channel. *)
Definition close (c : chan) : option chan :=
  match c with
  | Open => Some Closed
  | Closed => None
  end.

(** [<-c] can proceed *)
Definition can_recv (c : chan) : bool :=
  match c with
  | Open => false
  | Closed => true
  end.

Inductive select_case : Type := Case1 | Case2.

(** [select { case <-c1: ... case <-c2: ... }] *)
Definition select (pick : select_case) (c1 c2 : chan) : option select_case :=
  match can_recv c1, can_recv c2 with
  | true, true => Some pick
  | true, false => Some Case1
  | false, true => Some Case2
  | false, false => None
  end.

(** [context.Context], as far as the wait calls use it *)
Record Context : Type := mkContext {
  Done : chan;
  Err : error
}.

(** ** The coordinator *)

Record MountedFileSystem : Type := mkMFS {
  dir : string;
  readyStatus : error;
  readyStatusAvailable : chan;
  joinStatus : error;
  joinStatusAvailable : chan
}.

Definition set_readyStatus (v : error) (m : MountedFileSystem) :=
  mkMFS (dir m) v (readyStatusAvailable m) (joinStatus m) (joinStatusAvailable m).
Definition set_readyStatusAvailable (c : chan) (m : MountedFileSystem) :=
  mkMFS (dir m) (readyStatus m) c (joinStatus m) (joinStatusAvailable m).
Definition set_joinStatus (v : error) (m : MountedFileSystem) :=
  mkMFS (dir m) (readyStatus m) (readyStatusAvailable m) v (joinStatusAvailable m).
Definition set_joinStatusAvailable (c : chan) (m : MountedFileSystem) :=
  mkMFS (dir m) (readyStatus m) (readyStatusAvailable m) (joinStatus m) c.

Definition Dir (m : MountedFileSystem) : string := dir m.

(** A wait call reads the coordinator and hands it back; [None]: the call is
    blocked in its [select]. *)
Definition Wait (A : Type) : Type :=
  MountedFileSystem -> option (A * MountedFileSystem).

Definition WaitForReady (pick : select_case) (ctx : Context) : Wait error :=
  fun m =>
    match select pick (readyStatusAvailable m) (Done ctx) with
    | Some Case1 => Some (readyStatus m, m)
    | Some Case2 => Some (Err ctx, m)
    | None => None
    end.

Definition Join (pick : select_case) (ctx : Context) : Wait error :=
  fun m =>
    match select pick (joinStatusAvailable m) (Done ctx) with
    | Some Case1 => Some (joinStatus m, m)
    | Some Case2 => Some (Err ctx, m)
    | None => None
    end.

(** ** The background orchestration *)

(** [bazilfuse.Conn], as far as [mountAndServe] uses it *)
Record Conn : Type := mkConn {
  Ready : chan;
  MountError : error
}.

Inductive slot : Type := ReadySlot | JoinSlot.

Global Instance slot_eq_dec : EqDecision slot.
Proof. solve_decision. Defined.

Inductive event : Type :=
| EvMount                          (* bazilfuse.Mount was called *)
| EvWrite (f : slot) (v : error)   (* mfs.readyStatus = v, mfs.joinStatus = v *)
| EvClose (f : slot)               (* close(mfs.readyStatusAvailable), ... *)
| EvGo                             (* the readiness goroutine was started *)
| EvServe                          (* server.Serve was called *)
| EvServeReturn (v : error)        (* server.Serve returned v *)
| EvConnReady                      (* the connection closed c.Ready *)
| EvConnClose.                     (* c.Close() was called *)

(** Where [mountAndServe] stands, by the line of the statement it executes
    next. *)
Inductive main_pc : Type :=
| L86_Mount
| L88_write (e : string)
| L89_close
| L93_defer
| L97_go
| L108_Serve
| L108_Serving
| L109_write (e : string)
| L110_close
| L115_close
| Deferred_Close
| Returned
| Panicked.

Global Instance main_pc_eq_dec : EqDecision main_pc.
Proof. solve_decision. Defined.

(** Where the goroutine of lines 97-104 stands. *)
Inductive ready_pc : Type :=
| NotStarted
| L99_recv
| L102_write
| L103_close
| Finished
| ReadyPanicked.

Global Instance ready_pc_eq_dec : EqDecision ready_pc.
Proof. solve_decision. Defined.

Inductive thread : Type := TMain | TReadiness | TConn.

Global Instance thread_eq_dec : EqDecision thread.
Proof. solve_decision. Defined.

Section Model.

Variables FileSystem server MountOption : Type.

(** What the code outside the coordinator does. *)
Record World : Type := mkWorld {
  (* the error of bazilfuse.Mount(dir, options...); nil: a connection *)
  bazilfuse_Mount : string -> list MountOption -> error;
  (* the MountError the connection carries when its Ready channel closes *)
  conn_MountError : error;
  (* the error of server.Serve(c), when it returns *)
  server_Serve : server -> error
}.

Record system : Type := mkSystem {
  mfs : MountedFileSystem;
  srv : server;
  options : list MountOption;
  main : main_pc;
  readiness : ready_pc;
  conn : option Conn;
  log : list event
}.

Definition set_mfs (f : MountedFileSystem -> MountedFileSystem) (s : system) :=
  mkSystem (f (mfs s)) (srv s) (options s) (main s) (readiness s) (conn s) (log s).
Definition set_main (pc : main_pc) (s : system) :=
  mkSystem (mfs s) (srv s) (options s) pc (readiness s) (conn s) (log s).
Definition set_readiness (pc : ready_pc) (s : system) :=
  mkSystem (mfs s) (srv s) (options s) (main s) pc (conn s) (log s).
Definition set_conn (c : option Conn) (s : system) :=
  mkSystem (mfs s) (srv s) (options s) (main s) (readiness s) c (log s).
Definition emit (ev : event) (s : system) :=
  mkSystem (mfs s) (srv s) (options s) (main s) (readiness s) (conn s) (ev :: log s).

(** One statement of [mountAndServe].  [None]: it cannot move. *)
Definition mountAndServe_step (W : World) (s : system) : option system :=
  match main s with
  | L86_Mount =>
      match bazilfuse_Mount W (dir (mfs s)) (options s) with
      | Some e => Some (set_main (L88_write e) (emit EvMount s))
      | None =>
          Some (set_main L93_defer
                  (set_conn (Some (mkConn Open None)) (emit EvMount s)))
      end
  | L88_write e =>
      let v := errors_New ("bazilfuse.Mount: " +:+ e) in
      Some (set_main L89_close
              (set_mfs (set_readyStatus v) (emit (EvWrite ReadySlot v) s)))
  | L89_close =>
      match close (readyStatusAvailable (mfs s)) with
      | Some c =>
          (* return: no call has been deferred yet *)
          Some (set_main Returned
                  (set_mfs (set_readyStatusAvailable c)
                     (emit (EvClose ReadySlot) s)))
      | None => Some (set_main Panicked s)
      end
  | L93_defer => Some (set_main L97_go s)
  | L97_go => Some (set_main L108_Serve (set_readiness L99_recv (emit EvGo s)))
  | L108_Serve => Some (set_main L108_Serving (emit EvServe s))
  | L108_Serving =>
      match server_Serve W (srv s) with
      | Some e => Some (set_main (L109_write e) (emit (EvServeReturn (Some e)) s))
      | None => Some (set_main L115_close (emit (EvServeReturn None) s))
      end
  | L109_write e =>
      let v := errors_New ("Serve: " +:+ e) in
      Some (set_main L110_close
              (set_mfs (set_joinStatus v) (emit (EvWrite JoinSlot v) s)))
  | L110_close | L115_close =>
      match close (joinStatusAvailable (mfs s)) with
      | Some c =>
          Some (set_main Deferred_Close
                  (set_mfs (set_joinStatusAvailable c)
                     (emit (EvClose JoinSlot) s)))
      | None => Some (set_main Panicked s)
      end
  | Deferred_Close => Some (set_main Returned (emit EvConnClose s))
  | Returned | Panicked => None
  end.

(** One statement of the readiness goroutine. *)
Definition readiness_step (s : system) : option system :=
  match readiness s, conn s with
  | L99_recv, Some c =>
      if can_recv (Ready c) then Some (set_readiness L102_write s) else None
  | L102_write, Some c =>
      Some (set_readiness L103_close
              (set_mfs (set_readyStatus (MountError c))
                 (emit (EvWrite ReadySlot (MountError c)) s)))
  | L103_close, _ =>
      match close (readyStatusAvailable (mfs s)) with
      | Some c =>
          Some (set_readiness Finished
                  (set_mfs (set_readyStatusAvailable c)
                     (emit (EvClose ReadySlot) s)))
      | None => Some (set_readiness ReadyPanicked s)
      end
  | _, _ => None
  end.

(** The connection announces readiness: it stores its mount error and
    closes [Ready], once. *)
Definition conn_step (W : World) (s : system) : option system :=
  match conn s with
  | Some c =>
      match Ready c with
      | Open =>
          Some (set_conn (Some (mkConn Closed (conn_MountError W)))
                  (emit EvConnReady s))
      | Closed => None
      end
  | None => None
  end.

Definition thread_step (W : World) (t : thread) (s : system) : option system :=
  match t with
  | TMain => mountAndServe_step W s
  | TReadiness => readiness_step s
  | TConn => conn_step W s
  end.

Definition step (W : World) (s s' : system) : Prop :=
  exists t, thread_step W t s = Some s'.

(** Run a schedule; a thread that cannot move is skipped. *)
Fixpoint run (W : World) (sched : list thread) (s : system) : system :=
  match sched with
  | [] => s
  | t :: sched' =>
      match thread_step W t s with
      | Some s' => run W sched' s'
      | None => run W sched' s
      end
  end.

(** The coordinator as [Mount] creates it, with [mountAndServe] spawned and
    not yet run. *)
Definition new_mfs (d : string) : MountedFileSystem :=
  mkMFS d None Open None Open.

Definition spawn (d : string) (sv : server) (opts : list MountOption) : system :=
  mkSystem (new_mfs d) sv opts L86_Mount NotStarted None [].

Inductive MountConfig : Type := mkMountConfig.

(** Code of the repository that is not in the file: [newServer] and the
    body of [bazilfuseOptions] ([config] may be a nil pointer). *)
Variable newServer : FileSystem -> server * error.
Variable bazilfuseOptions : option MountConfig -> list MountOption.

(** [Mount]: the handle (nil or the coordinator with its background task)
    and the error. *)
Definition Mount (d : string) (fs : FileSystem) (config : option MountConfig)
  : option system * error :=
  match newServer fs with
  | (_, Some err) => (None, Some err)
  | (sv, None) => (Some (spawn d sv (bazilfuseOptions config)), None)
  end.

End Model.

Arguments mkWorld {server MountOption} _ _ _.
Arguments bazilfuse_Mount {server MountOption} _ _ _.
Arguments conn_MountError {server MountOption} _.
Arguments server_Serve {server MountOption} _ _.
Arguments mkSystem {server MountOption} _ _ _ _ _ _ _.
Arguments mfs {server MountOption} _.
Arguments srv {server MountOption} _.
Arguments options {server MountOption} _.
Arguments main {server MountOption} _.
Arguments readiness {server MountOption} _.
Arguments conn {server MountOption} _.
Arguments log {server MountOption} _.
Arguments set_mfs {server MountOption} _ _.
Arguments set_main {server MountOption} _ _.
Arguments set_readiness {server MountOption} _ _.
Arguments set_conn {server MountOption} _ _.
Arguments emit {server MountOption} _ _.
Arguments mountAndServe_step {server MountOption} _ _.
Arguments readiness_step {server MountOption} _.
Arguments conn_step {server MountOption} _ _.
Arguments thread_step {server MountOption} _ _ _.
Arguments step {server MountOption} _ _ _.
Arguments run {server MountOption} _ _ _.
Arguments spawn {server MountOption} _ _ _.
Arguments Mount {FileSystem server MountOption} _ _ _ _ _.

(** The executions of the background orchestration. *)
Definition reachable {server MountOption : Type}
    (W : World server MountOption) (s s' : system server MountOption) : Prop :=
  rtc (step W) s s'.

(** ** Reading the log *)

Definition is_write (f : slot) (ev : event) : bool :=
  match ev with
  | EvWrite g _ => bool_decide (f = g)
  | _ => false
  end.

Definition is_close (f : slot) (ev : event) : bool :=
  match ev with
  | EvClose g => bool_decide (f = g)
  | _ => false
  end.

Definition is_Serve (ev : event) : bool :=
  match ev with
  | EvServe => true
  | _ => false
  end.

Definition is_ConnClose (ev : event) : bool :=
  match ev with
  | EvConnClose => true
  | _ => false
  end.

Fixpoint occurrences (p : event -> bool) (l : list event) : nat :=
  match l with
  | [] => 0
  | ev :: earlier => (if p ev then 1 else 0) + occurrences p earlier
  end.

(** No write to the field of [f] comes after a close of its channel (the log
    is most recent first). *)
Fixpoint writes_precede_close (f : slot) (l : list event) : bool :=
  match l with
  | [] => true
  | ev :: earlier =>
      (if is_write f ev then Nat.eqb (occurrences (is_close f) earlier) 0 else true)
      && writes_precede_close f earlier
  end.

Definition status (f : slot) (m : MountedFileSystem) : error :=
  match f with
  | ReadySlot => readyStatus m
  | JoinSlot => joinStatus m
  end.

Definition available (f : slot) (m : MountedFileSystem) : chan :=
  match f with
  | ReadySlot => readyStatusAvailable m
  | JoinSlot => joinStatusAvailable m
  end.

(** How many times a thread is scheduled. *)
Fixpoint turns (t : thread) (sched : list thread) : nat :=
  match sched with
  | [] => 0
  | t' :: sched' => (if bool_decide (t = t') then 1 else 0) + turns t sched'
  end.

(** Statements [mountAndServe] has left before it has returned, at most. *)
Definition statements_left (pc : main_pc) : nat :=
  match pc with
  | L86_Mount => 8
  | L88_write _ => 2
  | L89_close => 1
  | L93_defer => 7
  | L97_go => 6
  | L108_Serve => 5
  | L108_Serving => 4
  | L109_write _ => 3
  | L110_close => 2
  | L115_close => 2
  | Deferred_Close => 1
  | Returned => 0
  | Panicked => 0
  end.

(** A sequence of wait calls on one coordinator, one after the other. *)
Fixpoint wait_each (call : select_case -> Context -> Wait error)
    (calls : list (select_case * Context)) : Wait (list error) :=
  fun m =>
    match calls with
    | [] => Some ([], m)
    | (pick, ctx) :: calls' =>
        match call pick ctx m with
        | Some (r, m') =>
            match wait_each call calls' m' with
            | Some (rs, m'') => Some (r :: rs, m'')
            | None => None
            end
        | None => None
        end
    end.

(** The wait call of a field. *)
Definition wait_call (f : slot) : select_case -> Context -> Wait error :=
  match f with
  | ReadySlot => WaitForReady
  | JoinSlot => Join
  end.

(** An error that wraps [e]: a new message that ends in the message of [e],
    after a description. *)
Definition wraps (e : string) (v : error) : Prop :=
  exists description, description <> "" /\ v = Some (description +:+ e).

(** ** The invariant of the orchestration

    Every reachable system is described by where its two goroutines stand. *)

Section Invariant.

Context {server MountOption : Type}.
Variable W : World server MountOption.
Variables (d : string) (sv : server) (opts : list MountOption).

Definition wrap (description : string) (e : error) : error :=
  match e with
  | Some msg => errors_New (description +:+ msg)
  | None => None
  end.

(** No connection yet, or never: the driver failed. *)
Definition no_connection (s : system server MountOption) : bool :=
  match conn s with
  | None => true
  | Some _ => false
  end.

Definition ready_written (s : system server MountOption) : bool :=
  if no_connection s then
    match main s with
    | L89_close | Returned => true
    | _ => false
    end
  else
    match readiness s with
    | L103_close | Finished => true
    | _ => false
    end.

Definition ready_closed (s : system server MountOption) : bool :=
  if no_connection s then
    match main s with
    | Returned => true
    | _ => false
    end
  else
    match readiness s with
    | Finished => true
    | _ => false
    end.

Definition join_written (s : system server MountOption) : bool :=
  match main s with
  | L110_close => true
  | Deferred_Close | Returned =>
      negb (no_connection s) && bool_decide (server_Serve W sv <> None)
  | _ => false
  end.

Definition join_closed (s : system server MountOption) : bool :=
  match main s with
  | Deferred_Close | Returned => negb (no_connection s)
  | _ => false
  end.

Definition Serve_called (s : system server MountOption) : bool :=
  match main s with
  | L108_Serving | L109_write _ | L110_close | L115_close | Deferred_Close =>
      true
  | Returned => negb (no_connection s)
  | _ => false
  end.

Definition Close_called (s : system server MountOption) : bool :=
  match main s with
  | Returned => negb (no_connection s)
  | _ => false
  end.

Definition expected_mfs (s : system server MountOption) : MountedFileSystem :=
  mkMFS d
    (if ready_written s then
       if no_connection s
       then wrap "bazilfuse.Mount: " (bazilfuse_Mount W d opts)
       else conn_MountError W
     else None)
    (if ready_closed s then Closed else Open)
    (if join_written s then wrap "Serve: " (server_Serve W sv) else None)
    (if join_closed s then Closed else Open).

(** Where [mountAndServe] stands fits the results of the outside world. *)
Definition main_ok (s : system server MountOption) : Prop :=
  match main s with
  | L86_Mount => conn s = None
  | L88_write e => bazilfuse_Mount W d opts = Some e /\ conn s = None
  | L89_close => bazilfuse_Mount W d opts <> None /\ conn s = None
  | L93_defer | L97_go | L108_Serve | L108_Serving | Deferred_Close =>
      conn s <> None
  | L109_write e => server_Serve W sv = Some e /\ conn s <> None
  | L110_close => server_Serve W sv <> None /\ conn s <> None
  | L115_close => server_Serve W sv = None /\ conn s <> None
  | Returned => conn s = None -> bazilfuse_Mount W d opts <> None
  | Panicked => False
  end.

(** The [go] statement of line 97 has been executed. *)
Definition started (s : system server MountOption) : bool :=
  match main s with
  | L86_Mount | L88_write _ | L89_close | L93_defer | L97_go => false
  | Returned => negb (no_connection s)
  | _ => true
  end.

Definition conn_ok (s : system server MountOption) : Prop :=
  match conn s with
  | None => True
  | Some c =>
      bazilfuse_Mount W d opts = None
      /\ (Ready c = Closed -> MountError c = conn_MountError W)
      /\ match readiness s with
         | L102_write => Ready c = Closed
         | ReadyPanicked => False
         | _ => True
         end
  end.

Definition b2n (b : bool) : nat := if b then 1 else 0.

Record Inv (s : system server MountOption) : Prop := mkInv {
  inv_srv : srv s = sv;
  inv_options : options s = opts;
  inv_main : main_ok s;
  inv_started : readiness s = NotStarted <-> started s = false;
  inv_conn : conn_ok s;
  inv_mfs : mfs s = expected_mfs s;
  inv_writes_ready :
    occurrences (is_write ReadySlot) (log s) = b2n (ready_written s);
  inv_closes_ready :
    occurrences (is_close ReadySlot) (log s) = b2n (ready_closed s);
  inv_writes_join :
    occurrences (is_write JoinSlot) (log s) = b2n (join_written s);
  inv_closes_join :
    occurrences (is_close JoinSlot) (log s) = b2n (join_closed s);
  inv_Serve : occurrences is_Serve (log s) = b2n (Serve_called s);
  inv_Close : occurrences is_ConnClose (log s) = b2n (Close_called s);
  inv_order_ready : writes_precede_close ReadySlot (log s) = true;
  inv_order_join : writes_precede_close JoinSlot (log s) = true
}.

End Invariant.

(** ** The rest of the coordinator and of the log *)

(** [Unmount]: the error of [bazilfuse.Unmount(mfs.dir)], code outside the
    repository. *)
Definition Unmount (bazilfuse_Unmount : string -> error)
    (m : MountedFileSystem) : error :=
  bazilfuse_Unmount (dir m).

Definition is_Mount (ev : event) : bool :=
  match ev with
  | EvMount => true
  | _ => false
  end.

Definition is_Go (ev : event) : bool :=
  match ev with
  | EvGo => true
  | _ => false
  end.

Definition is_ServeReturn (ev : event) : bool :=
  match ev with
  | EvServeReturn _ => true
  | _ => false
  end.

Definition is_ConnReady (ev : event) : bool :=
  match ev with
  | EvConnReady => true
  | _ => false
  end.

Definition not_Mount (ev : event) : bool := negb (is_Mount ev).

(** Every event of kind [q] has an event of kind [p] before it (the log is
    most recent first). *)
Fixpoint preceded_by (p q : event -> bool) (l : list event) : bool :=
  match l with
  | [] => true
  | ev :: earlier =>
      (if q ev then negb (Nat.eqb (occurrences p earlier) 0) else true)
      && preceded_by p q earlier
  end.

(** Statements the readiness goroutine has left, and announcements the
    connection has left, at most. *)
Definition readiness_left (pc : ready_pc) : nat :=
  match pc with
  | NotStarted | L99_recv => 3
  | L102_write => 2
  | L103_close => 1
  | Finished | ReadyPanicked => 0
  end.

Definition conn_left (c : option Conn) : nat :=
  match c with
  | Some c' => if can_recv (Ready c') then 0 else 1
  | None => 1
  end.

Definition work_left {server MountOption : Type}
    (s : system server MountOption) : nat :=
  statements_left (main s) + readiness_left (readiness s) + conn_left (conn s).

Section LogInvariant.

Context {server MountOption : Type}.
Variable W : World server MountOption.
Variables (d : string) (sv : server) (opts : list MountOption).

Definition Mount_called (s : system server MountOption) : bool :=
  match main s with
  | L86_Mount => false
  | _ => true
  end.

Definition Serve_returned (s : system server MountOption) : bool :=
  match main s with
  | L109_write _ | L110_close | L115_close | Deferred_Close => true
  | Returned => negb (no_connection s)
  | _ => false
  end.

(** The connection has closed [c.Ready]. *)
Definition conn_ready (s : system server MountOption) : bool :=
  match conn s with
  | Some c => can_recv (Ready c)
  | None => false
  end.

(** The whole log while there is no connection. *)
Definition log_without_conn (pc : main_pc) : list event :=
  let v := wrap "bazilfuse.Mount: " (bazilfuse_Mount W d opts) in
  match pc with
  | L88_write _ => [EvMount]
  | L89_close => [EvWrite ReadySlot v; EvMount]
  | Returned => [EvClose ReadySlot; EvWrite ReadySlot v; EvMount]
  | _ => []
  end.

Record LogInv (s : system server MountOption) : Prop := mkLogInv {
  log_Mount : occurrences is_Mount (log s) = b2n (Mount_called s);
  log_Go : occurrences is_Go (log s) = b2n (started s);
  log_ServeReturn :
    occurrences is_ServeReturn (log s) = b2n (Serve_returned s);
  log_ConnReady : occurrences is_ConnReady (log s) = b2n (conn_ready s);
  log_readiness_conn :
    match readiness s with
    | L102_write | L103_close | Finished => conn_ready s = true
    | _ => True
    end;
  log_failed : conn s = None -> log s = log_without_conn (main s);
  log_Mount_first : preceded_by is_Mount not_Mount (log s) = true;
  log_Go_Serve : preceded_by is_Go is_Serve (log s) = true;
  log_Serve_Return : preceded_by is_Serve is_ServeReturn (log s) = true;
  log_Return_close :
    preceded_by is_ServeReturn (is_close JoinSlot) (log s) = true;
  log_close_Close :
    preceded_by (is_close JoinSlot) is_ConnClose (log s) = true;
  log_ConnReady_write :
    bazilfuse_Mount W d opts = None ->
    preceded_by is_ConnReady (is_write ReadySlot) (log s) = true
}.

End LogInvariant.

(** How many threads of a schedule could move. *)
Fixpoint steps_taken {server MountOption : Type} (W : World server MountOption)
    (sched : list thread) (s : system server MountOption) : nat :=
  match sched with
  | [] => 0
  | t :: sched' =>
      match thread_step W t s with
      | Some s' => S (steps_taken W sched' s')
      | None => steps_taken W sched' s
      end
  end.

(** The readiness goroutine alone, after the connection. *)
Definition readiness_only : list thread :=
  [TConn; TReadiness; TReadiness; TReadiness].

(** A driver whose [Unmount] fails. *)
Definition unmount_busy (path : string) : error :=
  Some ("umount: " +:+ path +:+ ": device busy").

(** ** Worlds and calls used as examples *)

(** A caller that does not cancel, and one whose context is cancelled. *)
Definition background : Context := mkContext Open None.
Definition cancelled : Context := mkContext Closed (Some "context canceled").

(** The driver fails. *)
Definition world_mount_fails : World unit unit :=
  mkWorld (fun _ _ => Some "permission denied") None (fun _ => None).

(** The mount comes up cleanly and serving ends without an error. *)
Definition world_clean : World unit unit :=
  mkWorld (fun _ _ => None) None (fun _ => None).

(** The connection reports a mount error and serving fails. *)
Definition world_both_fail : World unit unit :=
  mkWorld (fun _ _ => None) (Some "fusermount: exit status 1")
    (fun _ => Some "EOF").

Definition mnt : string := "/mnt/x".

(** Schedules: the task alone; the task after the readiness goroutine. *)
Definition main_only : list thread := replicate 8 TMain.
Definition ready_prefix : list thread :=
  [TMain; TMain; TMain; TConn; TReadiness; TReadiness; TReadiness].
Definition ready_first : list thread := ready_prefix ++ replicate 5 TMain.

Definition signaled_run : system unit unit :=
  run world_both_fail ready_prefix (spawn mnt tt []).
Definition later_run : system unit unit :=
  run world_both_fail (replicate 5 TMain) signaled_run.
Definition failed_run : system unit unit :=
  run world_mount_fails main_only (spawn mnt tt []).
Definition clean_run : system unit unit :=
  run world_clean ready_first (spawn mnt tt []).
Definition both_fail_run : system unit unit :=
  run world_both_fail ready_first (spawn mnt tt []).
Definition early_exit_run : system unit unit :=
  run world_clean main_only (spawn mnt tt []).

(** Modelled from the spec: [newServer], which is not in the file.  Creating
    the coordinator "validates nothing beyond what the driver requires" and
    "never fails synchronously except on malformed configuration", and
    [MountConfig] has no field that could be malformed: making the server of a
    file system does not fail.  The server is the file system it serves. *)
Definition newServer_spec {FileSystem : Type} (fs : FileSystem)
  : FileSystem * error :=
  (fs, None).

(** [newServer] on the file system [tt]. *)
Definition newServer_ok (fs : unit) : unit * error := (tt, None).

Definition no_options (config : option MountConfig) : list unit := [].

(** ** Proofs *)

Ltac unfold_inv :=
  unfold main_ok, started, conn_ok, expected_mfs, ready_written, ready_closed,
    join_written, join_closed, Serve_called, Close_called, no_connection, b2n,
    set_main, set_readiness, set_conn, set_mfs, emit,
    set_readyStatus, set_readyStatusAvailable, set_joinStatus,
    set_joinStatusAvailable, wrap, errors_New in *;
  simpl in *.

Lemma length_app (a b : string) :
  String.length (a +:+ b) = String.length a + String.length b.
Proof. induction a as [|c a IH]; simpl; [done|by rewrite IH]. Qed.

(** Copying an error is not wrapping it. *)
Lemma copy_not_wraps (e : string) : ~ wraps e (Some e).
Proof.
  intros (description & Hne & Heq). injection Heq as Heq.
  apply (f_equal String.length) in Heq. rewrite length_app in Heq.
  destruct description; [done|simpl in Heq; lia].
Qed.

Lemma select_open_ctx pick c ctx :
  Done ctx = Open ->
  select pick c (Done ctx) = match c with Closed => Some Case1 | Open => None end.
Proof. intros ->. by destruct c, pick. Qed.

Lemma run_cons_some {server MountOption : Type} (W : World server MountOption)
    t sched s s' :
  thread_step W t s = Some s' -> run W (t :: sched) s = run W sched s'.
Proof. intros Ht. simpl. by rewrite Ht. Qed.

Lemma run_cons_none {server MountOption : Type} (W : World server MountOption)
    t sched s :
  thread_step W t s = None -> run W (t :: sched) s = run W sched s.
Proof. intros Ht. simpl. by rewrite Ht. Qed.

(** Run the next thread of a schedule on a system that is written out, with
    the results of the outside world given by the equations [HE] and [HS]. *)
Ltac run_one HE HS :=
  first
    [ erewrite run_cons_some;
      [|cbv - [bazilfuse_Mount conn_MountError server_Serve String.app];
        rewrite ?HE, ?HS; reflexivity]
    | rewrite run_cons_none;
      [|cbv - [bazilfuse_Mount conn_MountError server_Serve String.app];
        rewrite ?HE, ?HS; reflexivity] ];
  cbv [set_main set_readiness set_conn set_mfs emit set_readyStatus
       set_readyStatusAvailable set_joinStatus set_joinStatusAvailable
       mfs srv options main readiness conn log dir readyStatus
       readyStatusAvailable joinStatus joinStatusAvailable errors_New].

Section Proofs.
Context {server MountOption : Type}.
Variable W : World server MountOption.
Variables (d : string) (sv : server) (opts : list MountOption).

Lemma Inv_spawn : Inv W d sv opts (spawn d sv opts).
Proof. split; try reflexivity; unfold_inv; tauto. Qed.

Lemma Inv_main_step s s' :
  Inv W d sv opts s -> mountAndServe_step W s = Some s' -> Inv W d sv opts s'.
Proof.
  destruct s as [m sv' o pc rpc c l].
  intros [Hsv Ho Hpc Hst Hc Hm Hwr Hcr Hwj Hcj HS HC Hor Hoj].
  unfold mountAndServe_step.
  unfold_inv. subst sv' o m. simpl.
  destruct pc; simpl in *; try done.
  all: destruct c as [c|]; try (exfalso; intuition congruence).
  all: try (assert (rpc = NotStarted) by (apply Hst; reflexivity); subst rpc).
  all: destruct (bazilfuse_Mount W d opts) as [me|] eqn:Hme; try (exfalso; intuition congruence).
  all: destruct (server_Serve W sv) as [se|] eqn:Hse; try (exfalso; intuition congruence).
  all: intros [= <-].
  all: split; unfold_inv; rewrite ?Hme, ?Hse; try rewrite ?Hwr, ?Hcr, ?Hwj, ?Hcj, ?HS, ?HC, ?Hor, ?Hoj; simpl; try done.
  all: try (intuition congruence).
Qed.

Lemma Inv_readiness_step s s' :
  Inv W d sv opts s -> readiness_step s = Some s' -> Inv W d sv opts s'.
Proof.
  destruct s as [m sv' o pc rpc c l].
  intros [Hsv Ho Hpc Hst Hc Hm Hwr Hcr Hwj Hcj HS HC Hor Hoj].
  unfold readiness_step.
  unfold_inv. subst sv' o m. simpl.
  destruct rpc; simpl in *; try done.
  all: destruct c as [[rdy cme]|]; simpl in *; try done.
  all: try (destruct rdy; simpl in *; try done).
  all: try (exfalso; destruct pc; simpl in *; intuition congruence).
  all: intros [= <-].
  all: split; unfold_inv; try rewrite ?Hwr, ?Hcr, ?Hwj, ?Hcj, ?HS, ?HC, ?Hor, ?Hoj; simpl; try done.
  all: try (intuition congruence).
Qed.

Lemma Inv_conn_step s s' :
  Inv W d sv opts s -> conn_step W s = Some s' -> Inv W d sv opts s'.
Proof.
  destruct s as [m sv' o pc rpc c l].
  intros [Hsv Ho Hpc Hst Hc Hm Hwr Hcr Hwj Hcj HS HC Hor Hoj].
  unfold conn_step.
  unfold_inv. subst sv' o m. simpl.
  destruct c as [[[] cme]|]; simpl in *; try done.
  intros [= <-].
  split; unfold_inv; try rewrite ?Hwr, ?Hcr, ?Hwj, ?Hcj, ?HS, ?HC, ?Hor, ?Hoj; simpl; try done.
  all: try (intuition congruence).
  - destruct pc; simpl in *; intuition congruence.
  - destruct rpc; simpl in *; intuition congruence.
Qed.

Lemma Inv_step t s s' :
  Inv W d sv opts s -> thread_step W t s = Some s' -> Inv W d sv opts s'.
Proof.
  destruct t; simpl;
    eauto using Inv_main_step, Inv_readiness_step, Inv_conn_step.
Qed.

Lemma Inv_reachable s s' :
  Inv W d sv opts s -> reachable W s s' -> Inv W d sv opts s'.
Proof.
  intros HI Hr. induction Hr as [|s1 s2 s3 [t Ht] _ IH]; eauto using Inv_step.
Qed.

Lemma reachable_Inv s : reachable W (spawn d sv opts) s -> Inv W d sv opts s.
Proof. apply Inv_reachable, Inv_spawn. Qed.

Lemma run_reachable sched s : reachable W s (run W sched s).
Proof.
  revert s. induction sched as [|t sched IH]; intros s; simpl.
  - apply rtc_refl.
  - destruct (thread_step W t s) as [s'|] eqn:Ht; [|apply IH].
    eapply rtc_l; [exists t; exact Ht | apply IH].
Qed.

(** Once a channel is closed, a step changes neither it nor its field. *)
Lemma step_stable t s s' f :
  Inv W d sv opts s -> thread_step W t s = Some s' ->
  available f (mfs s) = Closed ->
  available f (mfs s') = Closed /\ status f (mfs s') = status f (mfs s).
Proof.
  intros HI Ht. pose proof (Inv_step _ _ _ HI Ht) as HI'.
  destruct HI as [_ _ Hpc Hst Hc Hm _ _ _ _ _ _ _ _].
  destruct HI' as [_ _ Hpc' Hst' Hc' Hm' _ _ _ _ _ _ _ _].
  rewrite Hm, Hm'. clear Hm Hm'.
  destruct s as [m sv' o pc rpc c l]. 
  destruct t; simpl in Ht.
  - unfold mountAndServe_step in Ht; simpl in Ht.
    destruct pc; simpl in *; try done.
    all: repeat match type of Ht with
           | context [match ?x with _ => _ end] => destruct x eqn:?; simpl in Ht
           end; simplify_eq.
    all: destruct f; unfold_inv; destruct c as [?|]; simpl in *; try done.
    all: try (intuition congruence).
    all: try (destruct rpc; simpl in *; intuition congruence).
  - unfold readiness_step in Ht; simpl in Ht.
    destruct rpc; simpl in *; try done.
    all: destruct c as [[rdy cme]|]; simpl in *; try done.
    all: repeat match type of Ht with
           | context [match ?x with _ => _ end] => destruct x eqn:?; simpl in Ht
           end; simplify_eq.
    all: destruct f; unfold_inv; try done.
    all: try (destruct pc; simpl in *; intuition congruence).
  - unfold conn_step in Ht; simpl in Ht.
    destruct c as [[[] cme]|]; simpl in *; try done.
    simplify_eq. destruct f; unfold_inv; done.
Qed.

Lemma reachable_stable s s' f :
  Inv W d sv opts s -> reachable W s s' ->
  available f (mfs s) = Closed ->
  available f (mfs s') = Closed /\ status f (mfs s') = status f (mfs s).
Proof.
  intros HI Hr. induction Hr as [|s1 s2 s3 [t Ht] _ IH]; [done|].
  intros Hcl.
  destruct (step_stable _ _ _ f HI Ht Hcl) as [Hcl2 Hst2].
  destruct (IH (Inv_step _ _ _ HI Ht) Hcl2) as [Hcl3 Hst3].
  split; congruence.
Qed.

(** [mountAndServe] is never blocked: each of its statements brings it
    closer to its return. *)
Lemma main_step_progress s :
  Inv W d sv opts s -> main s <> Returned ->
  exists s', mountAndServe_step W s = Some s'
             /\ statements_left (main s') < statements_left (main s).
Proof.
  intros [_ _ Hpc Hst Hc Hm _ _ _ _ _ _ _ _] Hnr.
  unfold mountAndServe_step. rewrite Hm.
  destruct s as [m sv' o pc rpc c l]; simpl in *.
  destruct pc; simpl in *; try done.
  all: unfold_inv.
  all: try (destruct c as [c|]; [|exfalso; intuition congruence]; simpl).
  all: repeat match goal with
         | |- context [match ?x with _ => _ end] => destruct x eqn:?; simpl
         end.
  all: try (eexists; split; [reflexivity|simpl; lia]).
  all: try (exfalso; intuition congruence).
Qed.

Lemma other_step_main t s s' :
  t <> TMain -> thread_step W t s = Some s' -> main s' = main s.
Proof.
  destruct t; [done| |]; intros _; simpl.
  - unfold readiness_step.
    destruct (readiness s), (conn s) as [c|]; try done;
      repeat match goal with
        | |- context [match ?x with _ => _ end] => destruct x eqn:?
        end; try done; by intros [= <-].
  - unfold conn_step. destruct (conn s) as [[[] ?]|]; try done.
    by intros [= <-].
Qed.

Lemma main_returns sched s :
  Inv W d sv opts s -> statements_left (main s) <= turns TMain sched ->
  main (run W sched s) = Returned.
Proof.
  revert s. induction sched as [|t sched IH]; intros s HI Hle; simpl in *.
  - destruct (main s) eqn:Hpc; simpl in *; try lia; try done.
    destruct HI as [_ _ Hm _ _ _ _ _ _ _ _ _ _ _].
    unfold main_ok in Hm. rewrite Hpc in Hm. done.
  - destruct (decide (main s = Returned)) as [Hret|Hnr].
    + assert (Hstay : forall t' s', thread_step W t' s = Some s' -> main s' = Returned).
      { intros t' s' Ht'. destruct t'.
        - simpl in Ht'. unfold mountAndServe_step in Ht'. rewrite Hret in Ht'. done.
        - rewrite (other_step_main TReadiness s s'); done.
        - rewrite (other_step_main TConn s s'); done. }
      destruct (thread_step W t s) as [s'|] eqn:Ht.
      * apply IH; [eauto using Inv_step|]. rewrite (Hstay _ _ Ht). simpl. lia.
      * apply IH; [done|]. rewrite Hret. simpl. lia.
    + destruct t; simpl in *.
      * destruct (main_step_progress s HI Hnr) as (s' & Hs' & Hlt).
        rewrite Hs'. apply IH; [eauto using Inv_main_step|lia].
      * destruct (readiness_step s) as [s'|] eqn:Ht.
        -- apply IH; [eauto using Inv_readiness_step|].
           rewrite (other_step_main TReadiness s s'); done.
        -- apply IH; done.
      * destruct (conn_step W s) as [s'|] eqn:Ht.
        -- apply IH; [eauto using Inv_conn_step|].
           rewrite (other_step_main TConn s s'); done.
        -- apply IH; done.
Qed.

Lemma failed_no_conn E s :
  Inv W d sv opts s -> bazilfuse_Mount W d opts = Some E -> conn s = None.
Proof.
  intros [_ _ _ _ Hc _ _ _ _ _ _ _ _ _] HE. unfold conn_ok in Hc.
  destruct (conn s); [|done]. destruct Hc as [Hc _]. congruence.
Qed.

(** C1: when the driver's [Mount] fails with error [E], [Serve] is never
    called, [joinStatusAvailable] is never closed and [joinStatus] is never
    written, in any state the task reaches.  Once the task has returned, a
    [WaitForReady] call whose context is not cancelled returns the error
    "bazilfuse.Mount: " + E, which wraps [E]; before that it blocks.  The
    task has returned after at most eight of its statements. *)
Theorem mount_failure_reported E s :
  bazilfuse_Mount W d opts = Some E ->
  reachable W (spawn d sv opts) s ->
  occurrences is_Serve (log s) = 0
  /\ occurrences (is_close JoinSlot) (log s) = 0
  /\ joinStatusAvailable (mfs s) = Open
  /\ occurrences (is_write JoinSlot) (log s) = 0
  /\ joinStatus (mfs s) = None
  /\ wraps E (errors_New ("bazilfuse.Mount: " +:+ E))
  /\ (main s = Returned ->
      forall pick ctx, Done ctx = Open ->
        WaitForReady pick ctx (mfs s)
        = Some (errors_New ("bazilfuse.Mount: " +:+ E), mfs s))
  /\ (main s <> Returned ->
      forall pick ctx, Done ctx = Open ->
        WaitForReady pick ctx (mfs s) = None)
  /\ (forall sched, 8 <= turns TMain sched ->
        main (run W sched (spawn d sv opts)) = Returned).
Proof.
  intros HE Hr. pose proof (reachable_Inv s Hr) as HI.
  pose proof (failed_no_conn E s HI HE) as Hconn.
  destruct HI as [_ _ Hpc Hst Hc Hm Hwr Hcr Hwj Hcj HS HC Hor Hoj].
  rewrite Hm, Hwj, Hcj, HS. unfold WaitForReady.
  destruct s as [m sv' o pc rpc c l]; simpl in *. subst c.
  unfold_inv. rewrite HE.
  repeat split.
  1-5: destruct pc; simpl in *; intuition congruence.
  - exists "bazilfuse.Mount: ". done.
  - intros -> pick [dn er] ->. done.
  - intros Hnr pick [dn er] ->. simpl in *. destruct pc; done.
  - intros sched Hle. apply main_returns; [apply Inv_spawn|done].
Qed.

Lemma mounted_facts s :
  Inv W d sv opts s -> bazilfuse_Mount W d opts = None ->
  main s = Returned -> conn s <> None.
Proof.
  intros [_ _ Hpc _ _ _ _ _ _ _ _ _ _ _] HE Hret.
  unfold main_ok in Hpc. rewrite Hret in Hpc. intros Hn. by apply Hpc.
Qed.

(** C2: in every state the orchestration reaches, each outcome field has
    been written at most once and each channel closed at most once (a second
    close would panic: no goroutine panics), no write to a field comes after
    the close of its channel, a channel is closed exactly when its close is
    in the log, and from a state where a channel is closed on, the channel
    stays closed and its field keeps its value. *)
Theorem outcomes_written_once_before_close s :
  reachable W (spawn d sv opts) s ->
  (forall f,
      occurrences (is_write f) (log s) <= 1
      /\ occurrences (is_close f) (log s) <= 1
      /\ writes_precede_close f (log s) = true
      /\ (available f (mfs s) = Closed <->
          occurrences (is_close f) (log s) = 1))
  /\ main s <> Panicked
  /\ readiness s <> ReadyPanicked
  /\ (forall f s',
        reachable W s s' -> available f (mfs s) = Closed ->
        available f (mfs s') = Closed
        /\ status f (mfs s') = status f (mfs s)).
Proof.
  intros Hr. pose proof (reachable_Inv s Hr) as HI.
  split; [|split; [|split]].
  - destruct HI as [_ _ Hpc Hst Hc Hm Hwr Hcr Hwj Hcj HS HC Hor Hoj].
    intros []; simpl; rewrite Hm; unfold expected_mfs; simpl.
    + rewrite Hwr, Hcr.
      destruct (ready_written s), (ready_closed s); simpl; intuition (done || lia).
    + rewrite Hwj, Hcj.
      destruct (join_written W sv s), (join_closed s); simpl; intuition (done || lia).
  - destruct HI as [_ _ Hpc _ _ _ _ _ _ _ _ _ _ _].
    unfold main_ok in Hpc. intros Hp. by rewrite Hp in Hpc.
  - destruct HI as [_ _ Hpc Hst Hc _ _ _ _ _ _ _ _ _].
    intros Hp. unfold conn_ok, started, main_ok, no_connection in *.
    rewrite Hp in *.
    destruct (conn s); [tauto|].
    destruct (main s); simpl in *; intuition congruence.
  - intros f s' Hr'. by apply reachable_stable.
Qed.

(** C3: after a successful driver mount, once [joinStatusAvailable] is
    closed: if [Serve] returned the error [F], [joinStatus] was written once
    and [Join] returns "Serve: " + F, which wraps [F]; if [Serve] returned
    nil, [joinStatus] was not written and [Join] returns nil.  The channel is
    closed exactly once, after the write, and is closed when the task has
    returned, which takes at most eight of its statements; while it is open
    [Join] blocks. *)
Theorem serve_outcome_joined s :
  bazilfuse_Mount W d opts = None ->
  reachable W (spawn d sv opts) s ->
  (forall F, server_Serve W sv = Some F ->
     joinStatusAvailable (mfs s) = Closed ->
     wraps F (errors_New ("Serve: " +:+ F))
     /\ occurrences (is_write JoinSlot) (log s) = 1
     /\ forall pick ctx, Done ctx = Open ->
          Join pick ctx (mfs s) = Some (errors_New ("Serve: " +:+ F), mfs s))
  /\ (server_Serve W sv = None ->
      joinStatusAvailable (mfs s) = Closed ->
      occurrences (is_write JoinSlot) (log s) = 0
      /\ forall pick ctx, Done ctx = Open ->
           Join pick ctx (mfs s) = Some (None, mfs s))
  /\ (joinStatusAvailable (mfs s) = Open ->
      occurrences (is_close JoinSlot) (log s) = 0
      /\ forall pick ctx, Done ctx = Open -> Join pick ctx (mfs s) = None)
  /\ (joinStatusAvailable (mfs s) = Closed ->
      occurrences (is_close JoinSlot) (log s) = 1)
  /\ writes_precede_close JoinSlot (log s) = true
  /\ (main s = Returned -> joinStatusAvailable (mfs s) = Closed)
  /\ (forall sched, 8 <= turns TMain sched ->
        main (run W sched (spawn d sv opts)) = Returned).
Proof.
  intros HE Hr. pose proof (reachable_Inv s Hr) as HI.
  pose proof (mounted_facts s HI HE) as Hconn.
  destruct HI as [_ _ Hpc Hst Hc Hm Hwr Hcr Hwj Hcj HS HC Hor Hoj].
  rewrite Hm, Hwj, Hcj. unfold Join.
  destruct s as [m sv' o pc rpc c l]; simpl in *.
  unfold_inv.
  split; [|split; [|split; [|split; [|split; [|split]]]]].
  - intros F HF Hcl. rewrite HF in *.
    split; [by exists "Serve: "|].
    split; [destruct pc, c; simpl in *; done|].
    intros pick [dn er] ->. rewrite Hcl.
    destruct pc, c; simpl in *; done.
  - intros HF Hcl. rewrite HF in *.
    split; [destruct pc, c; simpl in *; done|].
    intros pick [dn er] ->. rewrite Hcl.
    destruct pc, c; simpl in *; done.
  - intros Hop. split; [destruct pc, c; simpl in *; done|].
    intros pick [dn er] ->. by rewrite Hop.
  - destruct pc, c; simpl in *; done.
  - done.
  - intros ->. destruct c; simpl; [done|]. by exfalso; apply Hconn.
  - intros sched Hle. apply main_returns; [apply Inv_spawn|done].
Qed.

(** C6: after a successful driver mount the connection's [Close] is called
    at most once in every state the orchestration reaches: not at all before
    [mountAndServe] has returned and exactly once when it has, whatever
    [Serve] returned.  The task has returned after at most eight of its
    statements. *)
Theorem connection_closed_once s :
  bazilfuse_Mount W d opts = None ->
  reachable W (spawn d sv opts) s ->
  occurrences is_ConnClose (log s) <= 1
  /\ (main s = Returned -> occurrences is_ConnClose (log s) = 1)
  /\ (main s <> Returned -> occurrences is_ConnClose (log s) = 0)
  /\ (forall sched, 8 <= turns TMain sched ->
        main (run W sched (spawn d sv opts)) = Returned).
Proof.
  intros HE Hr. pose proof (reachable_Inv s Hr) as HI.
  pose proof (mounted_facts s HI HE) as Hconn.
  destruct HI as [_ _ Hpc Hst Hc Hm Hwr Hcr Hwj Hcj HS HC Hor Hoj].
  rewrite HC. unfold Close_called, no_connection, b2n.
  repeat split.
  - destruct (main s), (conn s); simpl; lia.
  - intros Hret. rewrite Hret. destruct (conn s); [done|]. by exfalso; apply Hconn.
  - intros Hnr. destruct (main s); done.
  - intros sched Hle. apply main_returns; [apply Inv_spawn|done].
Qed.

(** C4, amended: after a successful driver mount the readiness goroutine
    copies the connection's [MountError] into [readyStatus] and then closes
    [readyStatusAvailable].  From then on every [WaitForReady] call whose
    context is not cancelled returns that error, nil if the connection
    carried nil; a call whose context is cancelled returns it or the error of
    its context.  The goroutine finishes under the schedule [ready_first]. *)
Theorem readiness_outcome_copied s :
  bazilfuse_Mount W d opts = None ->
  reachable W (spawn d sv opts) s ->
  (readiness s = L103_close \/ readiness s = Finished ->
   readyStatus (mfs s) = conn_MountError W)
  /\ (readiness s = Finished <-> readyStatusAvailable (mfs s) = Closed)
  /\ (readyStatusAvailable (mfs s) = Closed ->
      forall s', reachable W s s' ->
      forall pick ctx,
        (Done ctx = Open ->
         WaitForReady pick ctx (mfs s') = Some (conn_MountError W, mfs s'))
        /\ (WaitForReady pick ctx (mfs s') = Some (conn_MountError W, mfs s')
            \/ Done ctx = Closed
               /\ WaitForReady pick ctx (mfs s') = Some (Err ctx, mfs s')))
  /\ (conn_MountError W = None ->
      readyStatusAvailable (mfs s) = Closed ->
      forall pick ctx, Done ctx = Open ->
        WaitForReady pick ctx (mfs s) = Some (None, mfs s))
  /\ readiness (run W ready_first (spawn d sv opts)) = Finished.
Proof.
  intros HE Hr. pose proof (reachable_Inv s Hr) as HI.
  assert (Hconn : conn s = None -> readyStatusAvailable (mfs s) = Open
                                  /\ readiness s = NotStarted).
  { destruct HI as [_ _ Hpc Hst Hc Hm _ _ _ _ _ _ _ _]. rewrite Hm.
    destruct s as [m sv' o pc rpc c l]; simpl in *. intros ->.
    unfold_inv. rewrite HE in *.
    destruct pc; simpl in *; intuition congruence. }
  assert (Hval : (readiness s = L103_close \/ readiness s = Finished ->
                  readyStatus (mfs s) = conn_MountError W)
                 /\ (readiness s = Finished <->
                     readyStatusAvailable (mfs s) = Closed)).
  { destruct HI as [_ _ Hpc Hst Hc Hm _ _ _ _ _ _ _ _].
    destruct (conn s) as [c|] eqn:Hcs.
    - rewrite Hm. unfold expected_mfs, ready_written, ready_closed,
        no_connection. rewrite Hcs. simpl.
      destruct (readiness s); simpl; intuition congruence.
    - destruct (Hconn eq_refl) as [Ho Hn]. rewrite Ho, Hn.
      intuition congruence. }
  destruct Hval as [Hval Hfin].
  assert (Hread : readyStatusAvailable (mfs s) = Closed ->
                  readyStatus (mfs s) = conn_MountError W).
  { intros Hcl. apply Hval. right. by apply Hfin. }
  split; [done|]. split; [done|]. split; [|split].
  - intros Hcl s' Hr' pick ctx.
    destruct (reachable_stable s s' ReadySlot HI Hr' Hcl) as [Hcl' Hst'].
    simpl in *. unfold WaitForReady. rewrite Hcl', Hst', (Hread Hcl).
    destruct ctx as [[] er], pick; simpl; (split; [done|auto]).
  - intros Hnil Hcl pick ctx Hopen. unfold WaitForReady.
    rewrite select_open_ctx, Hcl, (Hread Hcl), Hnil; done.
  - unfold ready_first, ready_prefix, spawn, new_mfs. simpl app.
    destruct (server_Serve W sv) as [F|] eqn:HS.
    all: do 12 run_one HE HS.
    all: reflexivity.
Qed.

(** C5: once the channel of a field is closed, every [WaitForReady] (resp.
    [Join]) call whose context is not cancelled, made in that state or in any
    later one, returns the value the field had when the channel was closed and
    hands the coordinator back unchanged; so does any sequence of such
    calls. *)
Theorem wait_calls_idempotent s s' f :
  reachable W (spawn d sv opts) s ->
  reachable W s s' ->
  available f (mfs s) = Closed ->
  (forall pick ctx, Done ctx = Open ->
     wait_call f pick ctx (mfs s') = Some (status f (mfs s), mfs s'))
  /\ (forall calls,
        Forall (fun call => Done (snd call) = Open) calls ->
        wait_each (wait_call f) calls (mfs s')
        = Some (replicate (length calls) (status f (mfs s)), mfs s')).
Proof.
  intros Hr Hr' Hcl. pose proof (reachable_Inv s Hr) as HI.
  destruct (reachable_stable s s' f HI Hr' Hcl) as [Hcl' Hst'].
  assert (Hone : forall pick ctx, Done ctx = Open ->
            wait_call f pick ctx (mfs s') = Some (status f (mfs s), mfs s')).
  { intros pick ctx Hopen. rewrite <- Hst'.
    destruct f; simpl in *; unfold WaitForReady, Join;
      rewrite select_open_ctx, Hcl'; done. }
  split; [done|].
  induction 1 as [|[pick ctx] calls Hopen _ IH]; simpl; [done|].
  rewrite (Hone pick ctx Hopen), IH. done.
Qed.

Lemma run_app sched1 sched2 s :
  run W (sched1 ++ sched2) s = run W sched2 (run W sched1 s).
Proof.
  revert s. induction sched1 as [|t sched1 IH]; intros s; simpl; [done|].
  destruct (thread_step W t s); apply IH.
Qed.

(** What the fields hold once their channels are closed. *)
Lemma fields_when_signalled s :
  reachable W (spawn d sv opts) s ->
  (forall E, bazilfuse_Mount W d opts = Some E ->
     readyStatusAvailable (mfs s) = Closed ->
     readyStatus (mfs s) = errors_New ("bazilfuse.Mount: " +:+ E)
     /\ wraps E (readyStatus (mfs s))
     /\ joinStatus (mfs s) = None)
  /\ (forall R, bazilfuse_Mount W d opts = None ->
       conn_MountError W = Some R ->
       readyStatusAvailable (mfs s) = Closed ->
       readyStatus (mfs s) = Some R /\ ~ wraps R (readyStatus (mfs s)))
  /\ (forall F, server_Serve W sv = Some F ->
       joinStatusAvailable (mfs s) = Closed ->
       joinStatus (mfs s) = errors_New ("Serve: " +:+ F)
       /\ wraps F (joinStatus (mfs s)))
  /\ (forall f, writes_precede_close f (log s) = true)
  /\ (forall f, available f (mfs s) = Closed -> status f (mfs s) <> None ->
       occurrences (is_write f) (log s) = 1).
Proof.
  intros Hr. pose proof (reachable_Inv s Hr) as HI.
  destruct HI as [_ _ Hpc Hst Hc Hm Hwr Hcr Hwj Hcj HS HC Hor Hoj].
  rewrite Hm.
  split; [|split; [|split; [|split]]].
  - intros E HE. unfold_inv. rewrite HE in *.
    destruct (conn s) as [c|]; [by destruct Hc|].
    destruct (main s); simpl; try done.
    intros _. split; [done|]. split; [|done]. by exists "bazilfuse.Mount: ".
  - intros R HE HR. unfold_inv. rewrite HE in *.
    destruct (conn s) as [c|].
    + destruct (readiness s); simpl; try done.
      intros _. rewrite HR. split; [done|]. apply copy_not_wraps.
    + destruct (main s); simpl in *; intuition congruence.
  - intros F HF. unfold_inv. rewrite HF in *.
    destruct (main s), (conn s); simpl; try done.
    all: intros _; split; [done|]; by exists "Serve: ".
  - by intros [].
  - intros []; simpl; [rewrite Hwr|rewrite Hwj]; unfold_inv.
    + destruct (conn s), (main s), (readiness s); simpl; done.
    + destruct (conn s), (main s), (server_Serve W sv); simpl; done.
Qed.

(** The channels are closed when the goroutines are done. *)
Lemma signalled_when_done s :
  reachable W (spawn d sv opts) s ->
  (bazilfuse_Mount W d opts <> None -> main s = Returned ->
   readyStatusAvailable (mfs s) = Closed)
  /\ (bazilfuse_Mount W d opts = None -> main s = Returned ->
      joinStatusAvailable (mfs s) = Closed /\ readiness s <> NotStarted)
  /\ (bazilfuse_Mount W d opts = None -> readiness s = Finished ->
      readyStatusAvailable (mfs s) = Closed).
Proof.
  intros Hr. pose proof (reachable_Inv s Hr) as HI.
  destruct HI as [_ _ Hpc Hst Hc Hm _ _ _ _ _ _ _ _].
  rewrite Hm. unfold_inv.
  split; [|split].
  - intros HE Hret. rewrite Hret in *.
    destruct (conn s) as [c|]; [by destruct Hc|done].
  - intros HE Hret. rewrite Hret in *. rewrite HE in *.
    destruct (conn s) as [c|]; simpl in *; [|by exfalso; apply Hpc].
    split; [done|]. intros Hn. apply Hst in Hn. done.
  - intros HE Hfin. rewrite Hfin in *. rewrite HE in *.
    destruct (conn s) as [c|]; simpl in *; [done|].
    exfalso. destruct (main s); simpl in *; intuition congruence.
Qed.

(** The connection's announcement and the three statements of the readiness
    goroutine, from wherever the goroutine stands. *)
Lemma readiness_only_finishes s :
  reachable W (spawn d sv opts) s ->
  readiness s <> NotStarted ->
  readiness (run W readiness_only s) = Finished.
Proof.
  intros Hr Hns. pose proof (reachable_Inv s Hr) as HI.
  destruct HI as [_ _ Hpc Hst Hc Hm _ _ _ _ _ _ _ _].
  destruct s as [m sv' o pc rpc c l]. unfold_inv. subst m.
  destruct c as [[rdy cme]|]; simpl in *.
  - destruct Hc as (_ & Hcme & Hc).
    unfold readiness_only.
    destruct rpc, rdy; simpl in *; done.
  - exfalso. apply Hns, Hst. destruct pc; simpl in *; intuition congruence.
Qed.

(** C8, amended: no error of a failure path is dropped, each reaches the
    field of its path before the channel of that field is closed, and the
    channel is closed.  A driver failure [E] populates [readyStatus] alone,
    with "bazilfuse.Mount: " + E, and a [Serve] error [F] populates
    [joinStatus] with "Serve: " + F, once [mountAndServe] has returned, which
    it has after eight of its statements; both wrap the error.  A non-nil
    error [R] carried by the connection populates [readyStatus] with [R]
    itself, a copy and not a wrapping, once the connection has announced
    readiness and the readiness goroutine has run.  Each field is written
    once, before its channel is closed. *)
Theorem failures_populate_their_field s :
  reachable W (spawn d sv opts) s ->
  (forall E, bazilfuse_Mount W d opts = Some E ->
     (readyStatusAvailable (mfs s) = Closed ->
      readyStatus (mfs s) = errors_New ("bazilfuse.Mount: " +:+ E)
      /\ wraps E (readyStatus (mfs s))
      /\ joinStatus (mfs s) = None)
     /\ (main s = Returned -> readyStatusAvailable (mfs s) = Closed)
     /\ (forall sched, 8 <= turns TMain sched ->
          readyStatusAvailable (mfs (run W sched (spawn d sv opts))) = Closed
          /\ readyStatus (mfs (run W sched (spawn d sv opts)))
             = errors_New ("bazilfuse.Mount: " +:+ E)))
  /\ (forall R, bazilfuse_Mount W d opts = None ->
       conn_MountError W = Some R ->
       (readyStatusAvailable (mfs s) = Closed ->
        readyStatus (mfs s) = Some R /\ ~ wraps R (readyStatus (mfs s)))
       /\ (readiness s = Finished -> readyStatusAvailable (mfs s) = Closed)
       /\ (readiness s <> NotStarted ->
           readyStatusAvailable (mfs (run W readiness_only s)) = Closed
           /\ readyStatus (mfs (run W readiness_only s)) = Some R)
       /\ (forall sched, 8 <= turns TMain sched ->
            readyStatusAvailable
              (mfs (run W (sched ++ readiness_only) (spawn d sv opts)))
            = Closed
            /\ readyStatus
                 (mfs (run W (sched ++ readiness_only) (spawn d sv opts)))
               = Some R))
  /\ (forall F, server_Serve W sv = Some F ->
       (joinStatusAvailable (mfs s) = Closed ->
        joinStatus (mfs s) = errors_New ("Serve: " +:+ F)
        /\ wraps F (joinStatus (mfs s)))
       /\ (bazilfuse_Mount W d opts = None ->
           (main s = Returned -> joinStatusAvailable (mfs s) = Closed)
           /\ (forall sched, 8 <= turns TMain sched ->
                joinStatusAvailable (mfs (run W sched (spawn d sv opts)))
                = Closed
                /\ joinStatus (mfs (run W sched (spawn d sv opts)))
                   = errors_New ("Serve: " +:+ F))))
  /\ (forall f, writes_precede_close f (log s) = true)
  /\ (forall f, available f (mfs s) = Closed -> status f (mfs s) <> None ->
       occurrences (is_write f) (log s) = 1).
Proof.
  intros Hr.
  destruct (fields_when_signalled s Hr) as (HfE & HfR & HfF & Hord & Hone).
  destruct (signalled_when_done s Hr) as (HdE & HdF & HdR).
  assert (Hend : forall sched, 8 <= turns TMain sched ->
            reachable W (spawn d sv opts) (run W sched (spawn d sv opts))
            /\ main (run W sched (spawn d sv opts)) = Returned).
  { intros sched Hle. split; [apply run_reachable|].
    apply main_returns; [apply Inv_spawn|done]. }
  assert (Hgo : forall s1, reachable W (spawn d sv opts) s1 ->
            readiness s1 <> NotStarted ->
            forall R, bazilfuse_Mount W d opts = None ->
              conn_MountError W = Some R ->
              readyStatusAvailable (mfs (run W readiness_only s1)) = Closed
              /\ readyStatus (mfs (run W readiness_only s1)) = Some R).
  { intros s1 Hr1 Hns R HE HR.
    assert (Hr2 : reachable W (spawn d sv opts) (run W readiness_only s1)).
    { unfold reachable in *. etrans; [exact Hr1|apply run_reachable]. }
    pose proof (readiness_only_finishes s1 Hr1 Hns) as Hfin.
    destruct (signalled_when_done _ Hr2) as (_ & _ & Hcl).
    destruct (fields_when_signalled _ Hr2) as (_ & HR2 & _).
    split; [by apply Hcl|]. by apply (HR2 R HE HR), Hcl. }
  split; [|split; [|split; [|split]]]; [| | |exact Hord|exact Hone].
  - intros E HE. split; [by apply HfE|].
    split; [apply HdE; congruence|].
    intros sched Hle. destruct (Hend sched Hle) as [Hr' Hret].
    destruct (signalled_when_done _ Hr') as (Hcl & _ & _).
    destruct (fields_when_signalled _ Hr') as (HE' & _).
    assert (readyStatusAvailable (mfs (run W sched (spawn d sv opts))) = Closed)
      as Hclosed by (apply Hcl; [congruence|done]).
    split; [done|]. by apply (HE' E HE).
  - intros R HE HR. split; [by apply HfR|]. split; [by apply HdR|].
    split; [intros Hns; by apply Hgo|].
    intros sched Hle. rewrite run_app.
    destruct (Hend sched Hle) as [Hr' Hret].
    destruct (signalled_when_done _ Hr') as (_ & Hst' & _).
    apply Hgo; [done| |done|done]. by apply Hst'.
  - intros F HF. split; [by apply HfF|].
    intros HE. split; [intros Hret; by apply HdF|].
    intros sched Hle. destruct (Hend sched Hle) as [Hr' Hret].
    destruct (signalled_when_done _ Hr') as (_ & Hcl & _).
    destruct (fields_when_signalled _ Hr') as (_ & _ & HF' & _).
    destruct (Hcl HE Hret) as [Hclosed _].
    split; [done|]. by apply (HF' F HF).
Qed.

(** C10: after a successful driver mount there is an execution, the one
    where [Serve] returns while the connection has not announced readiness,
    that reaches a state where [joinStatusAvailable] is closed and
    [readyStatusAvailable] is open: there [Join] returns and [WaitForReady]
    blocks. *)
Theorem termination_may_precede_readiness :
  bazilfuse_Mount W d opts = None ->
  exists sched,
    let s := run W sched (spawn d sv opts) in
    reachable W (spawn d sv opts) s
    /\ joinStatusAvailable (mfs s) = Closed
    /\ readyStatusAvailable (mfs s) = Open
    /\ occurrences (is_close ReadySlot) (log s) = 0
    /\ conn s = Some (mkConn Open None)
    /\ (forall pick, Join pick background (mfs s) = Some (joinStatus (mfs s), mfs s))
    /\ (forall pick, WaitForReady pick background (mfs s) = None).
Proof.
  intros HE. exists main_only. split; [apply run_reachable|].
  unfold main_only, spawn, new_mfs. simpl replicate.
  destruct (server_Serve W sv) as [F|] eqn:HS.
  all: do 8 run_one HE HS.
  all: simpl; repeat split; by intros [].
Qed.
End Proofs.

(** C7: a [WaitForReady] or [Join] call whose context is cancelled while
    the channel of its field is still open returns the error of its context
    and hands the coordinator back unchanged, so neither [readyStatus] nor
    [joinStatus] holds that error. *)
Theorem cancellation_not_stored (f : slot) (pick : select_case)
    (ctx : Context) (m : MountedFileSystem) :
  Done ctx = Closed ->
  available f m = Open ->
  wait_call f pick ctx m = Some (Err ctx, m).
Proof.
  intros Hdone Hopen.
  destruct f; simpl in *; unfold WaitForReady, Join; rewrite Hdone, Hopen; done.
Qed.

(** C9: [Mount] returns a handle and a nil error for every directory, file
    system and configuration, nil or not, and it returns before the driver
    is called: the handle is the new coordinator, both channels open, with
    [mountAndServe] spawned at its first statement.  Nothing the driver does
    later is an error of [Mount]: when the driver's [Mount] fails with [E],
    the handle's [WaitForReady] returns "bazilfuse.Mount: " + E once the
    spawned task has run. *)
Theorem Mount_returns_handle {FileSystem MountOption : Type}
    (bazilfuseOptions : option MountConfig -> list MountOption)
    (W : World FileSystem MountOption)
    (d : string) (fs : FileSystem) (config : option MountConfig) :
  let h := spawn d fs (bazilfuseOptions config) in
  Mount newServer_spec bazilfuseOptions d fs config = (Some h, None)
  /\ Dir (mfs h) = d
  /\ main h = L86_Mount
  /\ occurrences is_Mount (log h) = 0
  /\ (forall pick ctx, Done ctx = Open ->
        WaitForReady pick ctx (mfs h) = None
        /\ Join pick ctx (mfs h) = None)
  /\ (forall E sched,
        bazilfuse_Mount W d (bazilfuseOptions config) = Some E ->
        8 <= turns TMain sched ->
        forall pick ctx, Done ctx = Open ->
          WaitForReady pick ctx (mfs (run W sched h))
          = Some (errors_New ("bazilfuse.Mount: " +:+ E), mfs (run W sched h))).
Proof.
  simpl. split; [reflexivity|]. split; [reflexivity|]. split; [reflexivity|].
  split; [reflexivity|]. split.
  - intros pick ctx Hopen. unfold WaitForReady, Join.
    rewrite !select_open_ctx by done. done.
  - intros E sched HE Hle pick ctx Hopen.
    set (opts := bazilfuseOptions config) in *.
    assert (Hr : reachable W (spawn d fs opts) (run W sched (spawn d fs opts)))
      by apply run_reachable.
    assert (Hret : main (run W sched (spawn d fs opts)) = Returned)
      by (apply (main_returns W d fs opts); [apply Inv_spawn|done]).
    destruct (signalled_when_done W d fs opts _ Hr) as (Hcl & _ & _).
    destruct (fields_when_signalled W d fs opts _ Hr) as (HfE & _).
    assert (Hclosed : readyStatusAvailable (mfs (run W sched (spawn d fs opts)))
                      = Closed) by (apply Hcl; [congruence|done]).
    destruct (HfE E HE Hclosed) as (Hval & _).
    unfold WaitForReady. rewrite select_open_ctx by done.
    by rewrite Hclosed, Hval.
Qed.

(** ** The theorems at concrete executions *)

Example log_failed_run :
  rev (log failed_run)
  = [EvMount; EvWrite ReadySlot (Some "bazilfuse.Mount: permission denied");
     EvClose ReadySlot].
Proof. reflexivity. Qed.

Example log_both_fail_run :
  rev (log both_fail_run)
  = [EvMount; EvGo; EvConnReady;
     EvWrite ReadySlot (Some "fusermount: exit status 1"); EvClose ReadySlot;
     EvServe; EvServeReturn (Some "EOF");
     EvWrite JoinSlot (Some "Serve: EOF"); EvClose JoinSlot; EvConnClose].
Proof. reflexivity. Qed.

Example log_early_exit_run :
  rev (log early_exit_run)
  = [EvMount; EvGo; EvServe; EvServeReturn None; EvClose JoinSlot;
     EvConnClose]
  /\ readiness early_exit_run = L99_recv.
Proof. split; reflexivity. Qed.

Example blocked_before_any_signal :
  WaitForReady Case1 background (new_mfs mnt) = None
  /\ Join Case2 background (new_mfs mnt) = None
  /\ Dir (new_mfs mnt) = "/mnt/x".
Proof. repeat split. Qed.

(** The driver fails with "permission denied": the task returns after three
    statements and [WaitForReady] returns the wrapped error. *)
Lemma mount_failure_reported_witness :
  bazilfuse_Mount world_mount_fails mnt [] = Some "permission denied"
  /\ reachable world_mount_fails (spawn mnt tt []) failed_run
  /\ occurrences is_Serve (log failed_run) = 0
  /\ joinStatusAvailable (mfs failed_run) = Open
  /\ WaitForReady Case1 background (mfs failed_run)
     = Some (Some "bazilfuse.Mount: permission denied", mfs failed_run).
Proof.
  assert (Hr : reachable world_mount_fails (spawn mnt tt []) failed_run)
    by apply run_reachable.
  destruct (mount_failure_reported world_mount_fails mnt tt []
              "permission denied" failed_run eq_refl Hr)
    as (HS & _ & Hj & _ & _ & _ & Hw & _ & _).
  split; [reflexivity|]. split; [exact Hr|]. split; [exact HS|].
  split; [exact Hj|]. apply Hw; reflexivity.
Defined.

Lemma outcomes_written_once_before_close_witness :
  reachable world_both_fail (spawn mnt tt []) both_fail_run
  /\ occurrences (is_write ReadySlot) (log both_fail_run) <= 1
  /\ occurrences (is_close JoinSlot) (log both_fail_run) <= 1
  /\ writes_precede_close ReadySlot (log both_fail_run) = true.
Proof.
  assert (Hr : reachable world_both_fail (spawn mnt tt []) both_fail_run)
    by apply run_reachable.
  destruct (outcomes_written_once_before_close world_both_fail mnt tt []
              both_fail_run Hr) as (Hf & _).
  split; [exact Hr|].
  split; [apply (Hf ReadySlot)|]. split; [apply (Hf JoinSlot)|].
  apply (Hf ReadySlot).
Defined.

Lemma serve_outcome_joined_witness :
  bazilfuse_Mount world_both_fail mnt [] = None
  /\ reachable world_both_fail (spawn mnt tt []) both_fail_run
  /\ server_Serve world_both_fail tt = Some "EOF"
  /\ joinStatusAvailable (mfs both_fail_run) = Closed
  /\ Join Case1 background (mfs both_fail_run)
     = Some (Some "Serve: EOF", mfs both_fail_run).
Proof.
  assert (Hr : reachable world_both_fail (spawn mnt tt []) both_fail_run)
    by apply run_reachable.
  destruct (serve_outcome_joined world_both_fail mnt tt [] both_fail_run
              eq_refl Hr) as (HF & _).
  split; [reflexivity|]. split; [exact Hr|]. split; [reflexivity|].
  split; [reflexivity|].
  apply (HF "EOF" eq_refl eq_refl); reflexivity.
Defined.

Lemma readiness_outcome_copied_witness :
  bazilfuse_Mount world_clean mnt [] = None
  /\ reachable world_clean (spawn mnt tt []) clean_run
  /\ readyStatusAvailable (mfs clean_run) = Closed
  /\ WaitForReady Case2 background (mfs clean_run) = Some (None, mfs clean_run).
Proof.
  assert (Hr : reachable world_clean (spawn mnt tt []) clean_run)
    by apply run_reachable.
  destruct (readiness_outcome_copied world_clean mnt tt [] clean_run
              eq_refl Hr) as (_ & _ & _ & Hnil & _).
  split; [reflexivity|]. split; [exact Hr|]. split; [reflexivity|].
  apply Hnil; reflexivity.
Defined.

(** The claim as it stands: with the ready channel closed over a nil outcome,
    a call whose context is cancelled may take the second case of its
    [select] and return the error of the context. *)
Lemma cancelled_call_returns_its_error :
  bazilfuse_Mount world_clean mnt [] = None
  /\ conn_MountError world_clean = None
  /\ reachable world_clean (spawn mnt tt []) clean_run
  /\ readiness clean_run = Finished
  /\ readyStatusAvailable (mfs clean_run) = Closed
  /\ WaitForReady Case2 cancelled (mfs clean_run)
     = Some (Some "context canceled", mfs clean_run)
  /\ ~ (forall pick ctx,
          WaitForReady pick ctx (mfs clean_run) = Some (None, mfs clean_run)).
Proof.
  split; [reflexivity|]. split; [reflexivity|].
  split; [apply run_reachable|]. split; [reflexivity|].
  split; [reflexivity|]. split; [reflexivity|].
  intros Hall. specialize (Hall Case2 cancelled). discriminate Hall.
Qed.

Lemma wait_calls_idempotent_witness :
  reachable world_both_fail (spawn mnt tt []) signaled_run
  /\ reachable world_both_fail signaled_run later_run
  /\ available ReadySlot (mfs signaled_run) = Closed
  /\ wait_call ReadySlot Case2 background (mfs later_run)
     = Some (Some "fusermount: exit status 1", mfs later_run)
  /\ wait_each (wait_call ReadySlot)
       [(Case1, background); (Case2, background); (Case1, background)]
       (mfs later_run)
     = Some (replicate 3 (Some "fusermount: exit status 1"), mfs later_run).
Proof.
  assert (Hr : reachable world_both_fail (spawn mnt tt []) signaled_run)
    by apply run_reachable.
  assert (Hr' : reachable world_both_fail signaled_run later_run)
    by apply run_reachable.
  destruct (wait_calls_idempotent world_both_fail mnt tt [] signaled_run
              later_run ReadySlot Hr Hr' eq_refl) as [Hone Hall].
  split; [exact Hr|]. split; [exact Hr'|]. split; [reflexivity|].
  split; [apply Hone; reflexivity|].
  apply (Hall [(Case1, background); (Case2, background); (Case1, background)]).
  repeat constructor.
Defined.

Lemma connection_closed_once_witness :
  bazilfuse_Mount world_both_fail mnt [] = None
  /\ reachable world_both_fail (spawn mnt tt []) both_fail_run
  /\ server_Serve world_both_fail tt = Some "EOF"
  /\ main both_fail_run = Returned
  /\ occurrences is_ConnClose (log both_fail_run) = 1.
Proof.
  assert (Hr : reachable world_both_fail (spawn mnt tt []) both_fail_run)
    by apply run_reachable.
  destruct (connection_closed_once world_both_fail mnt tt [] both_fail_run
              eq_refl Hr) as (_ & Hret & _).
  split; [reflexivity|]. split; [exact Hr|]. split; [reflexivity|].
  split; [reflexivity|]. apply Hret. reflexivity.
Defined.

Lemma cancellation_not_stored_witness :
  Done cancelled = Closed
  /\ available ReadySlot (new_mfs mnt) = Open
  /\ wait_call ReadySlot Case1 cancelled (new_mfs mnt)
     = Some (Some "context canceled", new_mfs mnt).
Proof.
  split; [reflexivity|]. split; [reflexivity|].
  apply (cancellation_not_stored ReadySlot Case1 cancelled (new_mfs mnt));
    reflexivity.
Defined.

Lemma failures_populate_their_field_witness :
  reachable world_both_fail (spawn mnt tt []) signaled_run
  /\ bazilfuse_Mount world_both_fail mnt [] = None
  /\ server_Serve world_both_fail tt = Some "EOF"
  /\ joinStatusAvailable (mfs both_fail_run) = Closed
  /\ joinStatus (mfs both_fail_run) = Some "Serve: EOF"
  /\ readyStatus (mfs signaled_run) = Some "fusermount: exit status 1".
Proof.
  assert (Hr : reachable world_both_fail (spawn mnt tt []) signaled_run)
    by apply run_reachable.
  destruct (failures_populate_their_field world_both_fail mnt tt []
              signaled_run Hr) as (_ & HR & HF & _).
  destruct (HF "EOF" eq_refl) as (_ & HFrun).
  destruct (HFrun eq_refl) as (_ & Hlive).
  destruct (Hlive ready_first) as [Hcl Hjs]; [vm_compute; lia|].
  destruct (HR "fusermount: exit status 1" eq_refl eq_refl) as (Hval & _).
  split; [exact Hr|]. split; [reflexivity|]. split; [reflexivity|].
  split; [exact Hcl|]. split; [exact Hjs|]. apply Hval. reflexivity.
Defined.

(** The claim as it stands: the error the connection carries reaches
    [readyStatus] as it is, with no description put in front of it; in the
    same execution [Serve] fails too and both fields end up populated. *)
Lemma readiness_error_is_not_wrapped :
  bazilfuse_Mount world_both_fail mnt [] = None
  /\ conn_MountError world_both_fail = Some "fusermount: exit status 1"
  /\ reachable world_both_fail (spawn mnt tt []) both_fail_run
  /\ readyStatusAvailable (mfs both_fail_run) = Closed
  /\ readyStatus (mfs both_fail_run) = Some "fusermount: exit status 1"
  /\ ~ wraps "fusermount: exit status 1" (readyStatus (mfs both_fail_run))
  /\ joinStatus (mfs both_fail_run) = Some "Serve: EOF".
Proof.
  split; [reflexivity|]. split; [reflexivity|].
  split; [apply run_reachable|]. split; [reflexivity|].
  split; [reflexivity|]. split; [|reflexivity].
  apply copy_not_wraps.
Qed.

Lemma Mount_returns_handle_witness :
  Mount newServer_spec no_options mnt tt (Some mkMountConfig)
  = (Some (spawn mnt tt []), None)
  /\ bazilfuse_Mount world_mount_fails mnt [] = Some "permission denied"
  /\ WaitForReady Case1 background (mfs failed_run)
     = Some (Some "bazilfuse.Mount: permission denied", mfs failed_run).
Proof.
  destruct (Mount_returns_handle no_options world_mount_fails mnt tt
              (Some mkMountConfig)) as (HM & _ & _ & _ & _ & Hlate).
  split; [exact HM|]. split; [reflexivity|].
  apply (Hlate "permission denied" main_only eq_refl);
    [vm_compute; lia|reflexivity].
Defined.

Lemma termination_may_precede_readiness_witness :
  bazilfuse_Mount world_clean mnt [] = None
  /\ exists sched,
      let s := run world_clean sched (spawn mnt tt []) in
      joinStatusAvailable (mfs s) = Closed
      /\ readyStatusAvailable (mfs s) = Open
      /\ WaitForReady Case1 background (mfs s) = None.
Proof.
  split; [reflexivity|].
  destruct (termination_may_precede_readiness world_clean mnt tt [] eq_refl)
    as (sched & _ & Hj & Hr & _ & _ & _ & Hw).
  exists sched. split; [exact Hj|]. split; [exact Hr|]. apply Hw.
Defined.


(** ** More of the orchestration *)

Ltac unfold_log :=
  unfold Mount_called, Serve_returned, conn_ready, log_without_conn, not_Mount
    in *;
  unfold_inv.

Section More.
Context {server MountOption : Type}.
Variable W : World server MountOption.
Variables (d : string) (sv : server) (opts : list MountOption).

Lemma LogInv_spawn : LogInv W d opts (spawn d sv opts).
Proof. split; try reflexivity; unfold_log; tauto. Qed.

Lemma LogInv_main_step s s' :
  Inv W d sv opts s -> LogInv W d opts s ->
  mountAndServe_step W s = Some s' -> LogInv W d opts s'.
Proof.
  destruct s as [m sv' o pc rpc c l].
  intros [Hsv Ho Hpc Hst Hc Hm Hwr Hcr Hwj Hcj HS HC Hor Hoj]
    [LM LG LR LC Lrc Lf Lmf Lgs Lsr Lrcl Lcc Lcw].
  unfold mountAndServe_step.
  unfold_log. subst sv' o m. simpl.
  destruct pc; simpl in *; try done.
  all: destruct c as [c|]; try (exfalso; intuition congruence).
  all: try (assert (rpc = NotStarted) by (apply Hst; reflexivity); subst rpc).
  all: destruct (bazilfuse_Mount W d opts) as [me|] eqn:Hme;
    try (exfalso; intuition congruence).
  all: destruct (server_Serve W sv) as [se|] eqn:Hse;
    try (exfalso; intuition congruence).
  all: intros [= <-].
  all: split; unfold_log; rewrite ?Hme, ?Hse;
    try rewrite ?Hwr, ?Hcr, ?Hwj, ?Hcj, ?HS, ?HC, ?LM, ?LG, ?LR, ?LC; simpl;
    try done.
  all: try (intuition congruence).
Qed.

Lemma LogInv_readiness_step s s' :
  Inv W d sv opts s -> LogInv W d opts s ->
  readiness_step s = Some s' -> LogInv W d opts s'.
Proof.
  destruct s as [m sv' o pc rpc c l].
  intros [Hsv Ho Hpc Hst Hc Hm Hwr Hcr Hwj Hcj HS HC Hor Hoj]
    [LM LG LR LC Lrc Lf Lmf Lgs Lsr Lrcl Lcc Lcw].
  unfold readiness_step.
  unfold_log. subst sv' o m. simpl.
  destruct rpc; simpl in *; try done.
  all: destruct c as [[rdy cme]|]; simpl in *; try done.
  all: try (destruct rdy; simpl in *; try done).
  all: try (exfalso; destruct pc; simpl in *; intuition congruence).
  all: intros [= <-].
  all: split; unfold_log;
    try rewrite ?Hwr, ?Hcr, ?Hwj, ?Hcj, ?HS, ?HC, ?LM, ?LG, ?LR, ?LC; simpl;
    try done.
  all: try (intuition congruence).
  all: try (destruct pc; simpl in *; intuition congruence).
Qed.

Lemma LogInv_conn_step s s' :
  Inv W d sv opts s -> LogInv W d opts s ->
  conn_step W s = Some s' -> LogInv W d opts s'.
Proof.
  destruct s as [m sv' o pc rpc c l].
  intros [Hsv Ho Hpc Hst Hc Hm Hwr Hcr Hwj Hcj HS HC Hor Hoj]
    [LM LG LR LC Lrc Lf Lmf Lgs Lsr Lrcl Lcc Lcw].
  unfold conn_step.
  unfold_log. subst sv' o m. simpl.
  destruct c as [[[] cme]|]; simpl in *; try done.
  intros [= <-].
  split; unfold_log;
    try rewrite ?Hwr, ?Hcr, ?Hwj, ?Hcj, ?HS, ?HC, ?LM, ?LG, ?LR, ?LC; simpl;
    try done.
  all: try (intuition congruence).
  all: try (destruct pc; simpl in *; intuition congruence).
  all: try (destruct rpc; simpl in *; intuition congruence).
Qed.

Lemma LogInv_step t s s' :
  Inv W d sv opts s -> LogInv W d opts s ->
  thread_step W t s = Some s' -> LogInv W d opts s'.
Proof.
  destruct t; simpl;
    eauto using LogInv_main_step, LogInv_readiness_step, LogInv_conn_step.
Qed.

Lemma reachable_LogInv s :
  reachable W (spawn d sv opts) s -> LogInv W d opts s.
Proof.
  intros Hr.
  enough (Inv W d sv opts s /\ LogInv W d opts s) by tauto.
  revert s Hr. unfold reachable. apply rtc_ind_r.
  - split; [apply Inv_spawn|apply LogInv_spawn].
  - intros s1 s2 _ [t Ht] [HI HL].
    split; [eauto using Inv_step|eauto using LogInv_step].
Qed.

(** Every statement uses up some of the work that is left. *)
Lemma step_work_left t s s' :
  Inv W d sv opts s -> thread_step W t s = Some s' ->
  work_left s' < work_left s.
Proof.
  destruct s as [m sv' o pc rpc c l].
  intros [_ _ Hpc Hst Hc Hm _ _ _ _ _ _ _ _]. unfold work_left.
  unfold_inv. subst m.
  destruct t; simpl;
    unfold mountAndServe_step, readiness_step, conn_step; simpl; intros Hs.
  - destruct pc; simpl in *; try done.
    all: destruct c as [c|]; try (exfalso; intuition congruence).
    all: try (assert (rpc = NotStarted) by (apply Hst; reflexivity); subst rpc).
    all: repeat match type of Hs with
           | context [match ?x with _ => _ end] =>
               destruct x eqn:?; simpl in Hs
           end.
    all: injection Hs as <-; simpl; lia.
  - destruct rpc; simpl in *; try done.
    all: destruct c as [[[] cme]|]; simpl in *; try done.
    all: repeat match type of Hs with
           | context [match ?x with _ => _ end] =>
               destruct x eqn:?; simpl in Hs
           end; try done.
    all: injection Hs as <-; simpl; lia.
  - destruct c as [[[] cme]|]; simpl in *; try done.
    injection Hs as <-; simpl; lia.
Qed.

Lemma nsteps_work_left n s s' :
  Inv W d sv opts s -> nsteps (step W) n s s' ->
  n + work_left s' <= work_left s.
Proof.
  intros HI Hn. induction Hn as [s|n s1 s2 s3 [t Ht] _ IH]; [lia|].
  pose proof (step_work_left _ _ _ HI Ht).
  specialize (IH (Inv_step _ _ _ _ _ _ _ HI Ht)). lia.
Qed.

(** X7: the orchestration stops: no execution has more than twelve
    statements (eight of [mountAndServe], three of the readiness goroutine,
    one announcement of the connection), so nothing is retried. *)
Theorem orchestration_terminates n s :
  nsteps (step W) n (spawn d sv opts) s ->
  n + work_left s <= 12.
Proof.
  intros Hn. apply (nsteps_work_left n _ s (Inv_spawn W d sv opts) Hn).
Qed.

Lemma run_nsteps sched s :
  nsteps (step W) (steps_taken W sched s) s (run W sched s).
Proof.
  revert s. induction sched as [|t sched IH]; intros s; simpl.
  - constructor.
  - destruct (thread_step W t s) as [s'|] eqn:Ht; [|apply IH].
    eapply nsteps_l; [exists t; exact Ht|apply IH].
Qed.

(** X2: when the driver's [Mount] has failed, a [Join] call whose context is
    not cancelled blocks in every state the orchestration reaches; only its
    cancellation ends it, with the error of its context. *)
Theorem Join_blocks_after_mount_failure E s :
  bazilfuse_Mount W d opts = Some E ->
  reachable W (spawn d sv opts) s ->
  (forall pick ctx, Done ctx = Open -> Join pick ctx (mfs s) = None)
  /\ (forall pick ctx, Done ctx = Closed ->
        Join pick ctx (mfs s) = Some (Err ctx, mfs s)).
Proof.
  intros HE Hr. pose proof (reachable_Inv W d sv opts s Hr) as HI.
  pose proof (failed_no_conn W d sv opts E s HI HE) as Hconn.
  destruct HI as [_ _ _ _ _ Hm _ _ _ _ _ _ _ _].
  assert (Hopen : joinStatusAvailable (mfs s) = Open).
  { rewrite Hm. unfold_inv. rewrite Hconn. by destruct (main s). }
  unfold Join. rewrite Hopen.
  split; intros pick ctx ->; done.
Qed.

(** X3: after a successful driver mount [readyStatusAvailable] is closed
    only after the connection has announced readiness: the announcement is in
    the log once, before the write of [readyStatus], and [readyStatus] is
    the [MountError] the connection holds.  While the connection has not
    announced readiness, [WaitForReady] blocks. *)
Theorem readiness_after_connection s :
  bazilfuse_Mount W d opts = None ->
  reachable W (spawn d sv opts) s ->
  (readyStatusAvailable (mfs s) = Closed ->
   conn s = Some (mkConn Closed (readyStatus (mfs s)))
   /\ occurrences is_ConnReady (log s) = 1)
  /\ preceded_by is_ConnReady (is_write ReadySlot) (log s) = true
  /\ (conn_ready s = false ->
      forall pick ctx, Done ctx = Open ->
        WaitForReady pick ctx (mfs s) = None).
Proof.
  intros HE Hr. pose proof (reachable_Inv W d sv opts s Hr) as HI.
  pose proof (reachable_LogInv s Hr) as HL.
  destruct HI as [_ _ Hpc Hst Hc Hm _ _ _ _ _ _ _ _].
  destruct HL as [_ _ _ LC Lrc _ _ _ _ _ _ Lcw].
  assert (Hcl : readyStatusAvailable (mfs s) = Closed ->
                readiness s = Finished /\ conn_ready s = true).
  { rewrite Hm. unfold_log. rewrite HE in *.
    destruct (conn s) as [c|].
    - destruct (readiness s); simpl in *; done.
    - destruct (main s); simpl in *; intuition congruence. }
  split; [|split; [by apply Lcw|]].
  - intros Hclosed. destruct (Hcl Hclosed) as [Hfin Hrdy].
    rewrite LC, Hrdy. split; [|done].
    rewrite Hm. unfold_log. rewrite Hfin in *.
    destruct (conn s) as [[[] cme]|]; simpl in *; try done.
    destruct Hc as (_ & Hcme & _). by rewrite (Hcme eq_refl).
  - intros Hnr pick ctx Hopen. unfold WaitForReady.
    rewrite select_open_ctx by done.
    destruct (readyStatusAvailable (mfs s)) eqn:Hra; [done|].
    destruct (Hcl eq_refl) as [_ Hrdy]. congruence.
Qed.

(** X4: a nil result of [WaitForReady] means that the file system is
    mounted: if a call returns nil, and its context is not one that is
    cancelled with a nil error, then the driver's [Mount] succeeded and the
    connection announced readiness with a nil [MountError]. *)
Theorem WaitForReady_nil_means_mounted s pick ctx m' :
  reachable W (spawn d sv opts) s ->
  (Done ctx = Closed -> Err ctx <> None) ->
  WaitForReady pick ctx (mfs s) = Some (None, m') ->
  bazilfuse_Mount W d opts = None
  /\ conn_MountError W = None
  /\ conn_ready s = true
  /\ readyStatusAvailable (mfs s) = Closed.
Proof.
  intros Hr Hctx Hw. pose proof (reachable_Inv W d sv opts s Hr) as HI.
  pose proof (reachable_LogInv s Hr) as HL.
  destruct HI as [_ _ Hpc Hst Hc Hm _ _ _ _ _ _ _ _].
  destruct HL as [_ _ _ _ Lrc _ _ _ _ _ _ _].
  assert (Hcase : readyStatusAvailable (mfs s) = Closed
                  /\ readyStatus (mfs s) = None).
  { unfold WaitForReady, select in Hw.
    destruct (readyStatusAvailable (mfs s)), ctx as [[] er], pick;
      simpl in *; simplify_eq; try done.
    all: exfalso; by apply Hctx. }
  destruct Hcase as [Hcl Hnil]. pose proof Hcl as Hclosed.
  rewrite Hm in Hcl, Hnil. clear Hm.
  unfold_log.
  destruct (conn s) as [c|].
  - destruct Hc as (HE & _ & _).
    destruct (readiness s); simpl in *; done.
  - destruct (main s); simpl in *; try done.
    all: destruct (bazilfuse_Mount W d opts); simpl in *; [done|tauto].
Qed.

(** X5: what [Join] returns is what [Serve] returned.  If a call returns
    nil, and its context is not one that is cancelled with a nil error, then
    the driver's [Mount] succeeded and [Serve] was called once and returned
    nil; a call whose context is not cancelled returns the error of [Serve]
    behind "Serve: ", or nil, and only after [Serve] has returned. *)
Theorem Join_reports_Serve s pick ctx r m' :
  reachable W (spawn d sv opts) s ->
  (Done ctx = Closed -> Err ctx <> None) ->
  Join pick ctx (mfs s) = Some (r, m') ->
  (r = None ->
   bazilfuse_Mount W d opts = None /\ server_Serve W sv = None
   /\ joinStatusAvailable (mfs s) = Closed)
  /\ (Done ctx = Open ->
      r = wrap "Serve: " (server_Serve W sv)
      /\ occurrences is_Serve (log s) = 1
      /\ occurrences is_ServeReturn (log s) = 1).
Proof.
  intros Hr Hctx Hj. pose proof (reachable_Inv W d sv opts s Hr) as HI.
  pose proof (reachable_LogInv s Hr) as HL.
  destruct HI as [_ _ Hpc Hst Hc Hm _ _ _ _ HS _ _ _].
  destruct HL as [_ _ LR _ _ _ _ _ _ _ _ _].
  rewrite HS, LR.
  assert (Hval : joinStatusAvailable (mfs s) = Closed ->
                 joinStatus (mfs s) = wrap "Serve: " (server_Serve W sv)
                 /\ bazilfuse_Mount W d opts = None
                 /\ Serve_called s = true /\ Serve_returned s = true).
  { rewrite Hm. unfold_log.
    destruct (main s), (conn s) as [c|]; simpl in *; try done.
    all: destruct (server_Serve W sv); simpl; intuition congruence. }
  unfold Join, select in Hj.
  destruct (joinStatusAvailable (mfs s)) eqn:Hja, ctx as [[] er], pick;
    simpl in *; simplify_eq.
  all: try (split; [intros ->; exfalso; by apply Hctx|done]).
  all: destruct (Hval eq_refl) as (Hjs & HE & HSc & HSr);
    rewrite Hjs, HSc, HSr.
  all: split; [|done].
  all: destruct (server_Serve W sv); simpl; done.
Qed.

(** X6: readiness does not wait for serving.  Wherever [mountAndServe]
    stands after its [go] statement, also after it has returned and closed
    the connection, the connection's announcement and the three statements of
    the goroutine close [readyStatusAvailable] over the connection's
    [MountError], and leave [mountAndServe] and the join outcome as they
    are. *)
Theorem readiness_independent_of_Serve s :
  reachable W (spawn d sv opts) s ->
  readiness s <> NotStarted ->
  readyStatusAvailable (mfs (run W readiness_only s)) = Closed
  /\ readyStatus (mfs (run W readiness_only s)) = conn_MountError W
  /\ main (run W readiness_only s) = main s
  /\ joinStatus (mfs (run W readiness_only s)) = joinStatus (mfs s)
  /\ joinStatusAvailable (mfs (run W readiness_only s))
     = joinStatusAvailable (mfs s).
Proof.
  intros Hr Hns. pose proof (reachable_Inv W d sv opts s Hr) as HI.
  destruct HI as [_ _ Hpc Hst Hc Hm _ _ _ _ _ _ _ _].
  destruct s as [m sv' o pc rpc c l]. unfold_inv. subst m.
  destruct c as [[rdy cme]|]; simpl in *.
  - destruct Hc as (_ & Hcme & Hc).
    unfold readiness_only.
    destruct rpc, rdy; simpl in *; try done.
    all: try (rewrite (Hcme eq_refl)); done.
  - exfalso. apply Hns, Hst. destruct pc; simpl in *; intuition congruence.
Qed.

(** X8: the driver's [Mount] is the first thing in the log and is called
    once, never again; the readiness goroutine is started at most once and
    [Serve] is called at most once, after the goroutine was started; on the
    path where the driver failed neither happens. *)
Theorem driver_called_once_in_order s :
  reachable W (spawn d sv opts) s ->
  occurrences is_Mount (log s) = (if decide (main s = L86_Mount) then 0 else 1)
  /\ preceded_by is_Mount not_Mount (log s) = true
  /\ occurrences is_Go (log s) <= 1
  /\ occurrences is_Serve (log s) <= 1
  /\ preceded_by is_Go is_Serve (log s) = true
  /\ preceded_by is_Serve is_ServeReturn (log s) = true
  /\ (bazilfuse_Mount W d opts <> None ->
      occurrences is_Go (log s) = 0 /\ occurrences is_Serve (log s) = 0).
Proof.
  intros Hr. pose proof (reachable_Inv W d sv opts s Hr) as HI.
  pose proof (reachable_LogInv s Hr) as HL.
  destruct HI as [_ _ Hpc Hst Hc Hm _ _ _ _ HS _ _ _].
  destruct HL as [LM LG _ _ _ _ Lmf Lgs Lsr _ _ _].
  rewrite LM, LG, HS.
  split; [|split; [done|split; [|split; [|split; [done|split; [done|]]]]]].
  - unfold Mount_called, b2n. by destruct (main s).
  - unfold b2n. destruct (started s); lia.
  - unfold b2n. destruct (Serve_called s); lia.
  - intros HE. unfold_log.
    destruct (conn s) as [c|]; [by destruct Hc|].
    destruct (main s); simpl in *; intuition congruence.
Qed.

(** X9: [joinStatusAvailable] is closed only after [Serve] has returned,
    and the connection is closed only after [joinStatusAvailable] has been
    closed: when [Join] can return the outcome, [Serve] has returned, and
    when [c.Close()] has been called, [Join] no longer blocks. *)
Theorem release_after_termination s :
  reachable W (spawn d sv opts) s ->
  preceded_by is_ServeReturn (is_close JoinSlot) (log s) = true
  /\ preceded_by (is_close JoinSlot) is_ConnClose (log s) = true
  /\ (joinStatusAvailable (mfs s) = Closed ->
      occurrences is_ServeReturn (log s) = 1)
  /\ (occurrences is_ConnClose (log s) = 1 ->
      joinStatusAvailable (mfs s) = Closed
      /\ forall pick ctx, exists r, Join pick ctx (mfs s) = Some (r, mfs s)).
Proof.
  intros Hr. pose proof (reachable_Inv W d sv opts s Hr) as HI.
  pose proof (reachable_LogInv s Hr) as HL.
  destruct HI as [_ _ Hpc Hst Hc Hm _ _ _ _ _ HC _ _].
  destruct HL as [_ _ LR _ _ _ _ _ _ Lrcl Lcc _].
  rewrite LR, HC. split; [done|]. split; [done|].
  assert (Hcl : Close_called s = true -> joinStatusAvailable (mfs s) = Closed).
  { rewrite Hm. unfold_log. destruct (main s), (conn s); simpl; done. }
  split.
  - rewrite Hm. unfold_log. destruct (main s), (conn s); simpl; done.
  - unfold b2n. destruct (Close_called s); [|done]. intros _.
    split; [by apply Hcl|].
    intros pick ctx. unfold Join, select. rewrite (Hcl eq_refl).
    destruct ctx as [[] er], pick; simpl; eauto.
Qed.

(** X10: when the driver's [Mount] has failed and [mountAndServe] has
    returned, the whole execution was the call of the driver, the write of
    [readyStatus] and the close of [readyStatusAvailable]; no goroutine was
    started, there is no connection to close, and nothing can move any
    more. *)
Theorem mount_failure_log E s :
  bazilfuse_Mount W d opts = Some E ->
  reachable W (spawn d sv opts) s ->
  main s = Returned ->
  rev (log s)
  = [EvMount; EvWrite ReadySlot (errors_New ("bazilfuse.Mount: " +:+ E));
     EvClose ReadySlot]
  /\ readiness s = NotStarted
  /\ conn s = None
  /\ forall t, thread_step W t s = None.
Proof.
  intros HE Hr Hret. pose proof (reachable_Inv W d sv opts s Hr) as HI.
  pose proof (reachable_LogInv s Hr) as HL.
  pose proof (failed_no_conn W d sv opts E s HI HE) as Hconn.
  destruct HI as [_ _ Hpc Hst Hc Hm _ _ _ _ _ _ _ _].
  destruct HL as [_ _ _ _ _ Lf _ _ _ _ _ _].
  rewrite (Lf Hconn), Hret. unfold log_without_conn. rewrite HE. simpl.
  assert (Hns : readiness s = NotStarted).
  { apply Hst. unfold started, no_connection. by rewrite Hret, Hconn. }
  split; [done|]. split; [done|]. split; [done|].
  intros []; simpl.
  - unfold mountAndServe_step. by rewrite Hret.
  - unfold readiness_step. by rewrite Hns.
  - unfold conn_step. by rewrite Hconn.
Qed.
End More.

(** X1: the coordinator [Mount] hands out keeps its directory: in every state
    the orchestration reaches, whether the mount failed or not, [Dir]
    returns the directory given to [Mount] and [Unmount] asks the driver to
    unmount that directory; the server is the one [newServer] made and the
    options are those of the configuration. *)
Theorem handle_keeps_directory {FileSystem server MountOption : Type}
    (newServer : FileSystem -> server * error)
    (bazilfuseOptions : option MountConfig -> list MountOption)
    (W : World server MountOption) (bazilfuse_Unmount : string -> error)
    (d : string) (fs : FileSystem) (config : option MountConfig)
    (h s : system server MountOption) :
  fst (Mount newServer bazilfuseOptions d fs config) = Some h ->
  reachable W h s ->
  Dir (mfs s) = d
  /\ Unmount bazilfuse_Unmount (mfs s) = bazilfuse_Unmount d
  /\ srv s = fst (newServer fs)
  /\ options s = bazilfuseOptions config.
Proof.
  unfold Mount. destruct (newServer fs) as [sv [e|]]; simpl; [done|].
  intros [= <-] Hr.
  destruct (reachable_Inv W d sv (bazilfuseOptions config) s Hr)
    as [Hsv Ho _ _ _ Hm _ _ _ _ _ _ _ _].
  unfold Unmount, Dir. rewrite Hm. done.
Qed.

(** X11: a wait call blocks exactly as long as neither the channel of its
    field nor the [Done] channel of its context is closed, so a call whose
    context is cancelled never blocks; a call that returns hands the
    coordinator back as it was and returns the field, with its channel
    closed, or the error of its context, with [Done] closed. *)
Theorem wait_blocks_iff (f : slot) (pick : select_case) (ctx : Context)
    (m : MountedFileSystem) :
  (wait_call f pick ctx m = None <->
   available f m = Open /\ Done ctx = Open)
  /\ (forall r m', wait_call f pick ctx m = Some (r, m') ->
      m' = m
      /\ (r = status f m /\ available f m = Closed
          \/ r = Err ctx /\ Done ctx = Closed)).
Proof.
  destruct f; simpl; unfold WaitForReady, Join, select.
  - destruct (readyStatusAvailable m), ctx as [[] er], pick; simpl;
      (split; [split; [try done; intuition congruence|intuition congruence]|]);
      intros r m' Hw; simplify_eq; auto.
  - destruct (joinStatusAvailable m), ctx as [[] er], pick; simpl;
      (split; [split; [try done; intuition congruence|intuition congruence]|]);
      intros r m' Hw; simplify_eq; auto.
Qed.

(** ** The further theorems at concrete executions *)

Example steps_of_both_fail_run :
  steps_taken world_both_fail ready_first (spawn mnt tt []) = 12
  /\ work_left both_fail_run = 0.
Proof. split; reflexivity. Qed.

Lemma handle_keeps_directory_witness :
  fst (Mount newServer_ok no_options mnt tt None) = Some (spawn mnt tt [])
  /\ reachable world_both_fail (spawn mnt tt []) both_fail_run
  /\ Dir (mfs both_fail_run) = "/mnt/x"
  /\ Unmount unmount_busy (mfs both_fail_run)
     = Some "umount: /mnt/x: device busy".
Proof.
  assert (Hr : reachable world_both_fail (spawn mnt tt []) both_fail_run)
    by apply run_reachable.
  destruct (handle_keeps_directory newServer_ok no_options world_both_fail
              unmount_busy mnt tt None (spawn mnt tt []) both_fail_run
              eq_refl Hr) as (HD & HU & _).
  split; [reflexivity|]. split; [exact Hr|]. split; [exact HD|exact HU].
Defined.

Lemma Join_blocks_after_mount_failure_witness :
  bazilfuse_Mount world_mount_fails mnt [] = Some "permission denied"
  /\ reachable world_mount_fails (spawn mnt tt []) failed_run
  /\ Join Case1 background (mfs failed_run) = None
  /\ Join Case1 cancelled (mfs failed_run)
     = Some (Some "context canceled", mfs failed_run).
Proof.
  assert (Hr : reachable world_mount_fails (spawn mnt tt []) failed_run)
    by apply run_reachable.
  destruct (Join_blocks_after_mount_failure world_mount_fails mnt tt []
              "permission denied" failed_run eq_refl Hr) as [Hb Hc].
  split; [reflexivity|]. split; [exact Hr|].
  split; [apply Hb; reflexivity|apply (Hc Case1 cancelled); reflexivity].
Defined.

Lemma readiness_after_connection_witness :
  bazilfuse_Mount world_both_fail mnt [] = None
  /\ reachable world_both_fail (spawn mnt tt []) both_fail_run
  /\ readyStatusAvailable (mfs both_fail_run) = Closed
  /\ conn both_fail_run
     = Some (mkConn Closed (Some "fusermount: exit status 1"))
  /\ occurrences is_ConnReady (log both_fail_run) = 1.
Proof.
  assert (Hr : reachable world_both_fail (spawn mnt tt []) both_fail_run)
    by apply run_reachable.
  destruct (readiness_after_connection world_both_fail mnt tt []
              both_fail_run eq_refl Hr) as (Hcl & _ & _).
  split; [reflexivity|]. split; [exact Hr|]. split; [reflexivity|].
  apply (Hcl eq_refl).
Defined.

Lemma WaitForReady_nil_means_mounted_witness :
  reachable world_clean (spawn mnt tt []) clean_run
  /\ WaitForReady Case1 background (mfs clean_run)
     = Some (None, mfs clean_run)
  /\ bazilfuse_Mount world_clean mnt [] = None
  /\ conn_MountError world_clean = None
  /\ conn_ready clean_run = true.
Proof.
  assert (Hr : reachable world_clean (spawn mnt tt []) clean_run)
    by apply run_reachable.
  assert (Hctx : Done background = Closed -> Err background <> None)
    by (intros Hd; discriminate Hd).
  destruct (WaitForReady_nil_means_mounted world_clean mnt tt [] clean_run
              Case1 background (mfs clean_run) Hr Hctx eq_refl)
    as (HE & Hcme & Hrdy & _).
  split; [exact Hr|]. split; [reflexivity|].
  split; [exact HE|]. split; [exact Hcme|exact Hrdy].
Defined.

Lemma Join_reports_Serve_witness :
  reachable world_both_fail (spawn mnt tt []) both_fail_run
  /\ Join Case2 background (mfs both_fail_run)
     = Some (Some "Serve: EOF", mfs both_fail_run)
  /\ Some "Serve: EOF" = wrap "Serve: " (server_Serve world_both_fail tt)
  /\ occurrences is_ServeReturn (log both_fail_run) = 1.
Proof.
  assert (Hr : reachable world_both_fail (spawn mnt tt []) both_fail_run)
    by apply run_reachable.
  assert (Hctx : Done background = Closed -> Err background <> None)
    by (intros Hd; discriminate Hd).
  assert (Hj : Join Case2 background (mfs both_fail_run)
               = Some (Some "Serve: EOF", mfs both_fail_run))
    by (vm_compute; reflexivity).
  destruct (Join_reports_Serve world_both_fail mnt tt [] both_fail_run
              Case2 background (Some "Serve: EOF") (mfs both_fail_run)
              Hr Hctx Hj) as (_ & Hopen).
  destruct (Hopen eq_refl) as (Hr' & _ & Hret).
  split; [exact Hr|]. split; [exact Hj|]. split; [exact Hr'|exact Hret].
Defined.

Lemma readiness_independent_of_Serve_witness :
  reachable world_clean (spawn mnt tt []) early_exit_run
  /\ main early_exit_run = Returned
  /\ readyStatusAvailable (mfs early_exit_run) = Open
  /\ readyStatusAvailable (mfs (run world_clean readiness_only early_exit_run))
     = Closed
  /\ main (run world_clean readiness_only early_exit_run) = Returned.
Proof.
  assert (Hr : reachable world_clean (spawn mnt tt []) early_exit_run)
    by apply run_reachable.
  assert (Hns : readiness early_exit_run <> NotStarted)
    by (intros Hn; discriminate Hn).
  destruct (readiness_independent_of_Serve world_clean mnt tt []
              early_exit_run Hr Hns) as (Hcl & _ & Hm & _).
  split; [exact Hr|]. split; [reflexivity|]. split; [reflexivity|].
  split; [exact Hcl|exact Hm].
Defined.

Lemma orchestration_terminates_witness :
  nsteps (step world_both_fail) 12 (spawn mnt tt []) both_fail_run
  /\ 12 + work_left both_fail_run <= 12.
Proof.
  assert (Hn : nsteps (step world_both_fail) 12 (spawn mnt tt [])
                 both_fail_run)
    by apply (run_nsteps world_both_fail ready_first (spawn mnt tt [])).
  split; [exact Hn|].
  apply (orchestration_terminates world_both_fail mnt tt [] 12 both_fail_run Hn).
Defined.

Lemma driver_called_once_in_order_witness :
  reachable world_both_fail (spawn mnt tt []) both_fail_run
  /\ occurrences is_Mount (log both_fail_run) = 1
  /\ preceded_by is_Go is_Serve (log both_fail_run) = true.
Proof.
  assert (Hr : reachable world_both_fail (spawn mnt tt []) both_fail_run)
    by apply run_reachable.
  destruct (driver_called_once_in_order world_both_fail mnt tt []
              both_fail_run Hr) as (HM & _ & _ & _ & HG & _).
  split; [exact Hr|]. split; [exact HM|exact HG].
Defined.

Lemma release_after_termination_witness :
  reachable world_both_fail (spawn mnt tt []) both_fail_run
  /\ occurrences is_ConnClose (log both_fail_run) = 1
  /\ joinStatusAvailable (mfs both_fail_run) = Closed
  /\ preceded_by (is_close JoinSlot) is_ConnClose (log both_fail_run) = true.
Proof.
  assert (Hr : reachable world_both_fail (spawn mnt tt []) both_fail_run)
    by apply run_reachable.
  destruct (release_after_termination world_both_fail mnt tt []
              both_fail_run Hr) as (_ & Hcc & _ & Hcl).
  split; [exact Hr|]. split; [reflexivity|].
  split; [apply (Hcl eq_refl)|exact Hcc].
Defined.

Lemma mount_failure_log_witness :
  bazilfuse_Mount world_mount_fails mnt [] = Some "permission denied"
  /\ reachable world_mount_fails (spawn mnt tt []) failed_run
  /\ main failed_run = Returned
  /\ rev (log failed_run)
     = [EvMount; EvWrite ReadySlot (Some "bazilfuse.Mount: permission denied");
        EvClose ReadySlot]
  /\ thread_step world_mount_fails TReadiness failed_run = None.
Proof.
  assert (Hr : reachable world_mount_fails (spawn mnt tt []) failed_run)
    by apply run_reachable.
  destruct (mount_failure_log world_mount_fails mnt tt [] "permission denied"
              failed_run eq_refl Hr eq_refl) as (Hlog & _ & _ & Hstop).
  split; [reflexivity|]. split; [exact Hr|]. split; [reflexivity|].
  split; [exact Hlog|apply Hstop].
Defined.

Lemma wait_blocks_iff_witness :
  wait_call JoinSlot Case1 background (new_mfs mnt) = None
  /\ available JoinSlot (new_mfs mnt) = Open
  /\ Done background = Open.
Proof.
  destruct (wait_blocks_iff JoinSlot Case1 background (new_mfs mnt))
    as [[Hif _] _].
  split; [reflexivity|]. apply Hif. reflexivity.
Defined.
